(** * Data element usage insights (launchpy-usage)

    A shallow embedding of [src/data_element_usage_insights.py]: the search
    pattern built for a data element name, the scan of every fetched entity
    for that pattern, the used/unused report tables and the sanity check on
    the rule component categories. *)

From Stdlib Require Import Ascii String List Bool Arith Lia.
From stdpp Require Import base decidable option list sets gmap strings.

Local Open Scope list_scope.

(** ** Regular expressions

    The fragment of Python's [re] syntax that the script's two patterns use:
    literal characters, concatenation, alternation [a|b] and the optional
    group [(a)?].  [Fail] only arises while matching. *)
Module Re.

Inductive regex : Type :=
| Fail
| Eps
| Chr (c : ascii)
| Seq (r1 r2 : regex)
| Alt (r1 r2 : regex)
| Opt (r : regex).

(** The words a pattern matches in full. *)
Inductive matches : regex -> list ascii -> Prop :=
| m_eps : matches Eps []
| m_chr c : matches (Chr c) [c]
| m_seq r1 r2 u v : matches r1 u -> matches r2 v -> matches (Seq r1 r2) (u ++ v)
| m_alt_l r1 r2 u : matches r1 u -> matches (Alt r1 r2) u
| m_alt_r r1 r2 u : matches r2 u -> matches (Alt r1 r2) u
| m_opt_none r : matches (Opt r) []
| m_opt_some r u : matches r u -> matches (Opt r) u.

Fixpoint nullable (r : regex) : bool :=
  match r with
  | Fail => false
  | Eps => true
  | Chr _ => false
  | Seq r1 r2 => nullable r1 && nullable r2
  | Alt r1 r2 => nullable r1 || nullable r2
  | Opt _ => true
  end.

(** What is left of [r] once the character [c] has been read. *)
Fixpoint deriv (c : ascii) (r : regex) : regex :=
  match r with
  | Fail => Fail
  | Eps => Fail
  | Chr d => if Ascii.eqb c d then Eps else Fail
  | Seq r1 r2 =>
      if nullable r1
      then Alt (Seq (deriv c r1) r2) (deriv c r2)
      else Seq (deriv c r1) r2
  | Alt r1 r2 => Alt (deriv c r1) (deriv c r2)
  | Opt r1 => deriv c r1
  end.

(** [re.match]: some prefix of the text matches. *)
Fixpoint match_prefix (r : regex) (text : list ascii) : bool :=
  nullable r ||
  match text with
  | [] => false
  | c :: rest => match_prefix (deriv c r) rest
  end.

(** [re.search] taken as a truth value: the pattern matches at some
    position of the text. *)
Fixpoint search (r : regex) (text : list ascii) : bool :=
  match_prefix r text ||
  match text with
  | [] => false
  | _ :: rest => search r rest
  end.

(** [re.escape s]: the pattern that matches [s] literally. *)
Fixpoint escape (s : list ascii) : regex :=
  match s with
  | [] => Eps
  | c :: rest => Seq (Chr c) (escape rest)
  end.

End Re.

(** ** Python values and effects *)

(** The exceptions the script can meet.  [OtherException] stands for any
    exception class that is neither of the three named ones. *)
Inductive exception : Type :=
| TypeError
| AttributeError
| AssertionError
| OtherException (cls : string).

Inductive result (A : Type) : Type :=
| Returns (a : A)
| Raises (e : exception).
Arguments Returns {A} a.
Arguments Raises {A} e.

(** The [attributes] mapping of a fetched entity.  [settings] stands for
    everything in it besides the two keys the script reads. *)
Record Attributes : Type := {
  name : string;
  delegate_descriptor_id : string;
  settings : string
}.

(** A fetched entity: a Python dict.  [address] is the identity of the dict
    object ([id(subject)]); the other fields are its contents, [ident] being
    the entity id assigned by the API. *)
Record Entity : Type := {
  address : nat;
  ident : string;
  type : string;
  attributes : Attributes;
  rule_name : string
}.

#[global] Instance Attributes_eq_dec : EqDecision Attributes.
Proof. solve_decision. Defined.

#[global] Instance Entity_eq_dec : EqDecision Entity.
Proof. solve_decision. Defined.

(** [a == b] on dicts: the contents are compared, not the objects. *)
Definition py_eq (a b : Entity) : bool :=
  String.eqb (ident a) (ident b) && String.eqb (type a) (type b)
  && bool_decide (attributes a = attributes b)
  && String.eqb (rule_name a) (rule_name b).


(** A line written by [print]. *)
Inductive printed : Type :=
| FailedAttributes (subject : Entity).

(** Computations that print and may raise. *)
Definition M (A : Type) : Type := list printed -> result A * list printed.

Definition ret {A} (a : A) : M A := fun out => (Returns a, out).

Definition bind {A B} (m : M A) (k : A -> M B) : M B :=
  fun out =>
    match m out with
    | (Returns a, out') => k a out'
    | (Raises e, out') => (Raises e, out')
    end.

Definition raise {A} (e : exception) : M A := fun out => (Raises e, out).

Definition print (line : printed) : M unit := fun out => (Returns tt, out ++ [line]).

Notation "'let*' x ':=' m 'in' k" := (bind m (fun x => k))
  (at level 10, x name, m at level 100, k at level 200).

(** ** The usage mapping

    [results] is a Python dict from names to lists of entities; it keeps its
    keys in insertion order. *)
Definition dict : Type := list (string * list Entity).

Definition keys (d : dict) : list string := map fst d.

Fixpoint get (k : string) (d : dict) : option (list Entity) :=
  match d with
  | [] => None
  | (k', vs) :: rest => if String.eqb k' k then Some vs else get k rest
  end.

(** [d.setdefault(k, []).append(v)] *)
Fixpoint setdefault_append (k : string) (v : Entity) (d : dict) : dict :=
  match d with
  | [] => [(k, [v])]
  | (k', vs) :: rest =>
      if String.eqb k' k then (k', vs ++ [v]) :: rest
      else (k', vs) :: setdefault_append k v rest
  end.

(** ** Pattern builder (lines 112-116) *)

Definition backslash : ascii := "092"%char.
Definition double_quote : ascii := "034"%char.
Definition single_quote : ascii := "039"%char.
Definition percent : ascii := "037"%char.

(** The escaped string of line 114 holds two backslashes. *)
Definition slashes : Re.regex := Re.escape [backslash; backslash].

(** The alternation of line 115: a percent sign, or the optional slashes
    and a double quote, or the optional slashes and a single quote. *)
Definition enclosing : Re.regex :=
  Re.Alt (Re.Chr percent)
    (Re.Alt (Re.Seq (Re.Opt slashes) (Re.Chr double_quote))
            (Re.Seq (Re.Opt slashes) (Re.Chr single_quote))).

Definition usage_pattern (de_name : string) : Re.regex :=
  Re.Seq enclosing (Re.Seq (Re.escape (list_ascii_of_string de_name)) enclosing).

(** [bool(re.search(pattern, text))] *)
Definition re_search (pattern : Re.regex) (text : string) : bool :=
  Re.search pattern (list_ascii_of_string text).

(** ** Usage matcher (lines 98-126) *)
Section Matcher.

(** [str(lp.extractAttributes(subject))]: launchpy is an external library,
    so the text an entity serializes to, or the exception the attempt
    raises, is a parameter of the development. *)
Variable str_attributes : Entity -> result string.

Definition find_occurrence_in_attributes (subject : Entity) (pattern : Re.regex)
  : M bool :=
  match str_attributes subject with
  | Returns text => ret (re_search pattern text)
  | Raises TypeError =>
      let* _ := print (FailedAttributes subject) in ret false
  | Raises e => raise e
  end.

(** The inner loop [for subject in data_elements + rule_comps + extensions]. *)
Fixpoint scan_subjects (data_element : Entity) (pattern : Re.regex)
    (subjects : list Entity) (results : dict) : M dict :=
  match subjects with
  | [] => ret results
  | subject :: rest =>
      if py_eq subject data_element then
        scan_subjects data_element pattern rest results
      else
        let* found := find_occurrence_in_attributes subject pattern in
        if (found : bool) then
          scan_subjects data_element pattern rest
            (setdefault_append (name (attributes data_element)) subject results)
        else scan_subjects data_element pattern rest results
  end.

(** The outer loop [for data_element in data_elements]. *)
Fixpoint scan_data_elements (todo subjects : list Entity) (results : dict)
  : M dict :=
  match todo with
  | [] => ret results
  | data_element :: rest =>
      let de_name := name (attributes data_element) in
      let pattern := usage_pattern de_name in
      let* results' := scan_subjects data_element pattern subjects results in
      scan_data_elements rest subjects results'
  end.

Definition find_data_element_usage (data_elements rule_comps extensions : list Entity)
  : M dict :=
  scan_data_elements data_elements (data_elements ++ rule_comps ++ extensions) [].

End Matcher.

(** ** Rule component categories (lines 80-90) *)

(** [sub in s] on strings. *)
Fixpoint contains (sub s : string) : bool :=
  String.prefix sub s ||
  match s with
  | EmptyString => false
  | String _ rest => contains sub rest
  end.

Definition in_category (marker : string) (rc : Entity) : bool :=
  contains marker (delegate_descriptor_id (attributes rc)).

Definition rule_actions (rule_comps : list Entity) : list Entity :=
  filter (fun rc => in_category "::actions::" rc = true) rule_comps.

Definition rule_conditions (rule_comps : list Entity) : list Entity :=
  filter (fun rc => in_category "::conditions::" rc = true) rule_comps.

Definition rule_events (rule_comps : list Entity) : list Entity :=
  filter (fun rc => in_category "::events::" rc = true) rule_comps.

(** The [assert] of line 90. *)
Definition assert_categories (rule_comps : list Entity) : result unit :=
  if Nat.eqb (length rule_comps)
       (length (rule_actions rule_comps) + length (rule_conditions rule_comps)
        + length (rule_events rule_comps))
  then Returns tt
  else Raises AssertionError.

(** ** Report builder (lines 144-174) *)

Record row : Type := {
  data_element_name : string;
  usage_in_type : string;
  usage_in_name : string;
  usage_in_rule_name : option string
}.

(** The search of line 151 and its group 1: the category of the leftmost
    position where one of the three markers starts. *)
Fixpoint search_category (s : string) : option string :=
  if String.prefix "::actions::" s then Some "actions"%string
  else if String.prefix "::conditions::" s then Some "conditions"%string
  else if String.prefix "::events::" s then Some "events"%string
  else match s with
       | EmptyString => None
       | String _ rest => search_category rest
       end.

(** One dict of the list comprehension of lines 148-155.  [None.group(1)]
    raises [AttributeError]. *)
Definition usage_row (de_name : string) (subj : Entity) : result row :=
  if negb (String.eqb (type subj) "rule_components") then
    Returns {| data_element_name := de_name;
               usage_in_type := type subj;
               usage_in_name := name (attributes subj);
               usage_in_rule_name := None |}
  else
    match search_category (delegate_descriptor_id (attributes subj)) with
    | None => Raises AttributeError
    | Some category =>
        Returns {| data_element_name := de_name;
                   usage_in_type := String.append "rule_" category;
                   usage_in_name := name (attributes subj);
                   usage_in_rule_name := Some (rule_name subj) |}
    end.

Fixpoint usage_rows (de_name : string) (subjects : list Entity) : result (list row) :=
  match subjects with
  | [] => Returns []
  | subj :: rest =>
      match usage_row de_name subj with
      | Raises e => Raises e
      | Returns r =>
          match usage_rows de_name rest with
          | Raises e => Raises e
          | Returns rs => Returns (r :: rs)
          end
      end
  end.

(** The loop [for de_name in de_usage.keys()] filling [output_list]. *)
Fixpoint output_list (de_usage : dict) : result (list row) :=
  match de_usage with
  | [] => Returns []
  | (de_name, subjects) :: rest =>
      match usage_rows de_name subjects with
      | Raises e => Raises e
      | Returns usage =>
          match output_list rest with
          | Raises e => Raises e
          | Returns rows => Returns (usage ++ rows)
          end
      end
  end.

(** [[names] - de_usage.keys()]: the difference is taken by the keys view,
    which first turns the list of names into a set. *)
Definition not_used (data_elements : list Entity) (de_usage : dict) : gset string :=
  list_to_set (map (fun data_element => name (attributes data_element)) data_elements)
  ∖ list_to_set (keys de_usage).

(** ** Vocabulary of the statements *)

Definition str (c : ascii) : string := String c EmptyString.

(** The five texts that count as an enclosure: a percent sign, a double or a
    single quote, and either quote preceded by two backslashes (a backslash
    as it is written once escaped). *)
Definition enclosures : list string :=
  [ str percent;
    str double_quote;
    String backslash (String backslash (str double_quote));
    str single_quote;
    String backslash (String backslash (str single_quote)) ].

Definition is_delimiter (c : ascii) : bool :=
  Ascii.eqb c percent || Ascii.eqb c double_quote || Ascii.eqb c single_quote.

Fixpoint no_delimiter (s : string) : bool :=
  match s with
  | EmptyString => true
  | String c rest => negb (is_delimiter c) && no_delimiter rest
  end.

(** [X] stands in [text] between two enclosures. *)
Definition enclosed (X text : string) : Prop :=
  exists pre l r post,
    In l enclosures /\ In r enclosures /\
    text = String.append pre (String.append l (String.append X (String.append r post))).

(** ** What the scan records, stated without the loops *)
Section MatcherVocabulary.

Variable str_attributes : Entity -> result string.

(** The subject serializes and the pattern is found in the text. *)
Definition occurs (subject : Entity) (pattern : Re.regex) : bool :=
  match str_attributes subject with
  | Returns text => re_search pattern text
  | Raises _ => false
  end.

(** The subjects one data element is found in, in scan order. *)
Definition matching (data_element : Entity) (subjects : list Entity) : list Entity :=
  filter (fun subject =>
            negb (py_eq subject data_element)
            && occurs subject (usage_pattern (name (attributes data_element))) = true)
         subjects.

(** The subjects found for a name: those of every data element that bears
    it, one data element after the other. *)
Definition hits (de_name : string) (data_elements subjects : list Entity) : list Entity :=
  flat_map (fun data_element =>
              if String.eqb (name (attributes data_element)) de_name
              then matching data_element subjects else [])
           data_elements.

(** Serializing the subject fails with a [TypeError]. *)
Definition fails (subject : Entity) : bool :=
  match str_attributes subject with
  | Raises TypeError => true
  | _ => false
  end.

(** The lines printed while scanning for one data element, and for all. *)
Definition failures (data_element : Entity) (subjects : list Entity) : list printed :=
  map FailedAttributes
    (filter (fun subject => negb (py_eq subject data_element) && fails subject = true)
            subjects).

Definition all_failures (data_elements subjects : list Entity) : list printed :=
  flat_map (fun data_element => failures data_element subjects) data_elements.


End MatcherVocabulary.

Definition append_all (k : string) (vs : list Entity) (d : dict) : dict :=
  fold_left (fun d v => setdefault_append k v d) vs d.

Definition nonempty (vs : list Entity) : option (list Entity) :=
  match vs with
  | [] => None
  | _ => Some vs
  end.

Definition names (data_elements : list Entity) : list string :=
  map (fun data_element => name (attributes data_element)) data_elements.

(** The number of category markers in a rule component's descriptor. *)
Definition markers_in (rc : Entity) : nat :=
  (if in_category "::actions::" rc then 1 else 0)
  + (if in_category "::conditions::" rc then 1 else 0)
  + (if in_category "::events::" rc then 1 else 0).

(** ** Sample property *)
Module Sample.

Local Open Scope string_scope.

(** A serializer in the manner of the text Python prints for a dict. *)
Definition repr_attributes (e : Entity) : string :=
  "{'name': '" +:+ name (attributes e)
  +:+ "', 'delegate_descriptor_id': '" +:+ delegate_descriptor_id (attributes e)
  +:+ "', 'settings': '" +:+ settings (attributes e) +:+ "'}".

Definition serialize (e : Entity) : result string := Returns (repr_attributes e).

Definition data_element (addr : nat) (id nm body : string) : Entity :=
  {| address := addr; ident := id; type := "data_elements";
     attributes := {| name := nm;
                      delegate_descriptor_id := "core::dataElements::javascript-variable";
                      settings := body |};
     rule_name := "" |}.

Definition rule_component (addr : nat) (id nm descriptor body rule : string) : Entity :=
  {| address := addr; ident := id; type := "rule_components";
     attributes := {| name := nm; delegate_descriptor_id := descriptor;
                      settings := body |};
     rule_name := rule |}.

Definition extension (addr : nat) (id nm body : string) : Entity :=
  {| address := addr; ident := id; type := "extensions";
     attributes := {| name := nm; delegate_descriptor_id := "";
                      settings := body |};
     rule_name := "" |}.

Definition user_id : Entity := data_element 1 "DE1" "userId" "user.id".
Definition cart_total : Entity := data_element 2 "DE2" "cartTotal" "cart.total".


(** Another data element that bears the name of [user_id]. *)
Definition user_id_again : Entity := data_element 4 "DE4" "userId" "visitor.id".

Definition send_beacon : Entity :=
  rule_component 10 "RC1" "Send beacon" "core::actions::custom-code"
    ("dataLayer.get(" +:+ str double_quote +:+ "userId" +:+ str double_quote +:+ ")")
    "Track Purchase".

(** A descriptor with two markers, and one with none. *)
Definition two_markers : Entity :=
  rule_component 11 "RC2" "Odd one" "core::events::click::actions::x" "%userId%"
    "Track Purchase".
Definition no_marker : Entity :=
  rule_component 12 "RC3" "Plain one" "core" "nothing" "Track Purchase".

Definition analytics : Entity := extension 20 "EX1" "Analytics" "eVar1=%cartTotal%".

(** A data element and an extension that refer to [user_id]. *)
Definition basket : Entity := data_element 5 "DE5" "basket" "%userId%".
Definition target : Entity := extension 21 "EX2" "Target" "mbox=%userId%".


(** A serializer that fails on one data element with a [TypeError]. *)
Definition serialize_type_error (e : Entity) : result string :=
  if String.eqb (ident e) "DE4" then Raises TypeError else serialize e.

End Sample.

(** ** Property selection (lines 47-57) *)

(** The names listed at line 48. *)
Definition property_names (my_properties : list Entity) : list string :=
  map (fun my_property => name (attributes my_property)) my_properties.

(** Line 55: the first element of the filtered list; indexing an empty list
    raises [IndexError]. *)
Definition select_property (my_property_name : string) (my_properties : list Entity)
  : result Entity :=
  match filter (fun x => String.eqb my_property_name (name (attributes x)) = true)
               my_properties with
  | [] => Raises (OtherException "IndexError")
  | my_property :: _ => Returns my_property
  end.

#[global] Instance printed_eq_dec : EqDecision printed.
Proof. solve_decision. Defined.

(** The marker of a category, as line 151 writes it around the group. *)
Definition marker (category : string) : string :=
  String.append "::" (String.append category "::").

(** * Properties *)

(** ** The pattern matcher agrees with the words a pattern denotes *)
Module ReFacts.
Import Re.

Create HintDb re.
#[local] Hint Constructors matches : re.

Ltac invert H := inversion H; subst; clear H.

Lemma matches_seq_inv (r1 r2 : regex) (w : list ascii) :
  matches (Seq r1 r2) w -> exists u v, w = u ++ v /\ matches r1 u /\ matches r2 v.
Proof. intros H. invert H. eauto. Qed.

Lemma matches_alt_inv (r1 r2 : regex) (w : list ascii) :
  matches (Alt r1 r2) w -> matches r1 w \/ matches r2 w.
Proof. intros H. invert H; auto. Qed.

Lemma matches_opt_inv (r : regex) (w : list ascii) :
  matches (Opt r) w -> w = [] \/ matches r w.
Proof. intros H. invert H; auto. Qed.

Lemma matches_chr_inv (c : ascii) (w : list ascii) : matches (Chr c) w -> w = [c].
Proof. intros H. by invert H. Qed.

Lemma matches_seq (r1 r2 : regex) (u v w : list ascii) :
  w = u ++ v -> matches r1 u -> matches r2 v -> matches (Seq r1 r2) w.
Proof. intros -> ? ?. by constructor. Qed.

Lemma nullable_spec (r : regex) : nullable r = true <-> matches r [].
Proof.
  induction r; simpl; split; intros H;
    try discriminate; try (inversion H; fail); auto with re.
  - apply andb_true_iff in H as [H1 H2].
    apply (matches_seq _ _ [] []); tauto.
  - apply matches_seq_inv in H as (u & v & Heq & Hu & Hv).
    symmetry in Heq. apply app_eq_nil in Heq as [-> ->].
    apply andb_true_iff; tauto.
  - apply orb_true_iff in H as [H|H]; [apply m_alt_l|apply m_alt_r]; tauto.
  - apply orb_true_iff. apply matches_alt_inv in H. tauto.
Qed.

Lemma deriv_spec (c : ascii) (r : regex) (s : list ascii) :
  matches (deriv c r) s <-> matches r (c :: s).
Proof.
  revert s. induction r; intros s; simpl.
  - split; intros H; inversion H.
  - split; intros H; inversion H.
  - destruct (Ascii.eqb_spec c c0) as [->|Hne]; split; intros H; invert H;
      solve [constructor | congruence].
  - assert (Hseq : matches (Seq (deriv c r1) r2) s <->
                   exists u v, s = u ++ v /\ matches r1 (c :: u) /\ matches r2 v).
    { split.
      - intros H. apply matches_seq_inv in H as (u & v & -> & Hu & Hv).
        exists u, v. by rewrite <- IHr1.
      - intros (u & v & -> & Hu & Hv). constructor; [by apply IHr1|done]. }
    destruct (nullable r1) eqn:Hn; split; intros H.
    + apply matches_alt_inv in H as [H|H].
      * apply Hseq in H as (u & v & -> & Hu & Hv).
        by apply (matches_seq _ _ (c :: u) v).
      * apply (matches_seq _ _ [] (c :: s)); [done| |by apply IHr2].
        by apply nullable_spec.
    + apply matches_seq_inv in H as (u & v & Heq & Hu & Hv).
      destruct u as [|d u]; simpl in Heq.
      * subst v. apply m_alt_r. by apply IHr2.
      * injection Heq as <- ->. apply m_alt_l. apply Hseq. eauto.
    + apply Hseq in H as (u & v & -> & Hu & Hv).
      by apply (matches_seq _ _ (c :: u) v).
    + apply matches_seq_inv in H as (u & v & Heq & Hu & Hv).
      destruct u as [|d u]; simpl in Heq.
      * apply nullable_spec in Hu. congruence.
      * injection Heq as <- ->. apply Hseq. eauto.
  - split; intros H; apply matches_alt_inv in H as [H|H];
      solve [apply m_alt_l; by apply IHr1 | apply m_alt_r; by apply IHr2].
  - split; intros H.
    + apply m_opt_some. by apply IHr.
    + apply matches_opt_inv in H as [H|H]; [discriminate|by apply IHr].
Qed.

Lemma match_prefix_spec (r : regex) (text : list ascii) :
  match_prefix r text = true <-> exists u v, text = u ++ v /\ matches r u.
Proof.
  revert r. induction text as [|c text IH]; intros r; simpl.
  - rewrite orb_false_r, nullable_spec. split.
    + intros H. by exists [], [].
    + intros (u & v & Heq & H). symmetry in Heq.
      apply app_eq_nil in Heq as [-> ->]. done.
  - rewrite orb_true_iff, nullable_spec, IH. split.
    + intros [H|(u & v & -> & H)].
      * by exists [], (c :: text).
      * exists (c :: u), v. split; [done|]. by apply deriv_spec.
    + intros (u & v & Heq & H). destruct u as [|d u]; simpl in Heq.
      * by left.
      * injection Heq as -> ->. right. exists u, v. split; [done|].
        by apply deriv_spec.
Qed.

Lemma search_spec (r : regex) (text : list ascii) :
  search r text = true <->
  exists pre u post, text = pre ++ u ++ post /\ matches r u.
Proof.
  induction text as [|c text IH]; cbn [search].
  - rewrite orb_false_r, match_prefix_spec. split.
    + intros (u & v & Heq & H). by exists [], u, v.
    + intros (pre & u & post & Heq & H). symmetry in Heq.
      apply app_eq_nil in Heq as [-> Heq]. apply app_eq_nil in Heq as [-> ->].
      by exists [], [].
  - rewrite orb_true_iff, match_prefix_spec, IH. split.
    + intros [(u & v & Heq & H)|(pre & u & post & -> & H)].
      * by exists [], u, v.
      * by exists (c :: pre), u, post.
    + intros (pre & u & post & Heq & H). destruct pre as [|d pre]; simpl in Heq.
      * left. by exists u, post.
      * injection Heq as -> ->. right. by exists pre, u, post.
Qed.

Lemma escape_spec (s u : list ascii) : matches (escape s) u <-> u = s.
Proof.
  revert u. induction s as [|c s IH]; intros u; simpl; split; intros H.
  - by invert H.
  - subst. constructor.
  - apply matches_seq_inv in H as (a & b & -> & Ha & Hb).
    apply matches_chr_inv in Ha as ->. apply IH in Hb as ->. done.
  - subst. apply (matches_seq _ _ [c] s); [done|constructor|by apply IH].
Qed.

End ReFacts.

(** ** Pattern builder *)
Section Pattern.
Import Re ReFacts.

Local Notation chars := (list_ascii_of_string).

Lemma chars_app (a b : string) : chars (String.append a b) = chars a ++ chars b.
Proof. induction a as [|c a IH]; simpl; [done|by rewrite IH]. Qed.

Lemma chars_inj (a b : string) : chars a = chars b -> a = b.
Proof.
  intros H. rewrite <- (string_of_list_ascii_of_string a),
    <- (string_of_list_ascii_of_string b). by rewrite H.
Qed.

Lemma matches_enclosing (l : list ascii) :
  matches enclosing l <-> In l (map chars enclosures).
Proof.
  unfold enclosing, slashes. simpl. split.
  - intros H. apply matches_alt_inv in H as [H|H].
    { apply matches_chr_inv in H as ->. auto. }
    apply matches_alt_inv in H as [H|H];
      apply matches_seq_inv in H as (u & v & -> & Hu & Hv);
      apply matches_chr_inv in Hv as ->;
      (apply matches_opt_inv in Hu as [->|Hu];
       [|apply (escape_spec [backslash; backslash]) in Hu as ->]); simpl; auto 6.
  - intros [<-|[<-|[<-|[<-|[<-|[]]]]]].
    + apply m_alt_l. constructor.
    + apply m_alt_r, m_alt_l. apply (matches_seq _ _ [] [double_quote]);
        [done|constructor|constructor].
    + apply m_alt_r, m_alt_l.
      apply (matches_seq _ _ [backslash; backslash] [double_quote]);
        [done|apply m_opt_some; by apply (escape_spec [backslash; backslash])|constructor].
    + apply m_alt_r, m_alt_r. apply (matches_seq _ _ [] [single_quote]);
        [done|constructor|constructor].
    + apply m_alt_r, m_alt_r.
      apply (matches_seq _ _ [backslash; backslash] [single_quote]);
        [done|apply m_opt_some; by apply (escape_spec [backslash; backslash])|constructor].
Qed.

Lemma search_usage_pattern (X : string) (text : list ascii) :
  search (usage_pattern X) text = true <->
  exists pre l r post,
    In l (map chars enclosures) /\ In r (map chars enclosures) /\
    text = pre ++ l ++ chars X ++ r ++ post.
Proof.
  unfold usage_pattern. rewrite search_spec. split.
  - intros (pre & u & post & -> & H).
    apply matches_seq_inv in H as (l & w & -> & Hl & H).
    apply matches_seq_inv in H as (x & r & -> & Hx & Hr).
    apply escape_spec in Hx as ->.
    exists pre, l, r, post. rewrite <- !matches_enclosing.
    by rewrite <- !app_assoc.
  - intros (pre & l & r & post & Hl & Hr & ->).
    exists pre, (l ++ chars X ++ r), post. split.
    + by rewrite <- !app_assoc.
    + constructor; [by apply matches_enclosing|].
      constructor; [by apply escape_spec|by apply matches_enclosing].
Qed.

Lemma re_search_enclosed (X text : string) :
  re_search (usage_pattern X) text = true <-> enclosed X text.
Proof.
  unfold re_search, enclosed. rewrite search_usage_pattern. split.
  - intros (pre & l & r & post & Hl & Hr & Heq).
    apply in_map_iff in Hl as (l' & <- & Hl).
    apply in_map_iff in Hr as (r' & <- & Hr).
    exists (string_of_list_ascii pre), l', r', (string_of_list_ascii post).
    split; [done|]. split; [done|]. apply chars_inj.
    by rewrite !chars_app, !list_ascii_of_string_of_list_ascii.
  - intros (pre & l & r & post & Hl & Hr & ->).
    exists (chars pre), (chars l), (chars r), (chars post).
    split; [by apply in_map|]. split; [by apply in_map|].
    by rewrite !chars_app.
Qed.

Lemma enclosure_last (l : list ascii) :
  In l (map chars enclosures) ->
  exists l0 d, l = l0 ++ [d] /\ is_delimiter d = true.
Proof.
  intros [<-|[<-|[<-|[<-|[<-|[]]]]]]; simpl.
  - by exists [], percent.
  - by exists [], double_quote.
  - by exists [backslash; backslash], double_quote.
  - by exists [], single_quote.
  - by exists [backslash; backslash], single_quote.
Qed.

Lemma enclosure_first (r : list ascii) :
  In r (map chars enclosures) ->
  exists c r', r = c :: r' /\
    (is_delimiter c = true \/ exists r'', r' = backslash :: r'').
Proof.
  intros [<-|[<-|[<-|[<-|[<-|[]]]]]]; simpl; eauto 7.
Qed.

Lemma no_delimiter_chars (X : string) :
  no_delimiter X = true <-> Forall (fun c => is_delimiter c = false) (chars X).
Proof.
  induction X as [|c X IH]; simpl.
  - split; [constructor|done].
  - rewrite andb_true_iff, negb_true_iff, IH, Forall_cons. tauto.
Qed.

(** A text without any delimiter character holds no enclosed name. *)
Lemma search_no_delimiter (X : string) (text : list ascii) :
  Forall (fun c => is_delimiter c = false) text ->
  search (usage_pattern X) text = false.
Proof.
  intros Hall. apply not_true_is_false. intros H.
  apply search_usage_pattern in H as (pre & l & r & post & Hl & _ & ->).
  apply enclosure_last in Hl as (l0 & d & -> & Hd).
  rewrite List.Forall_forall in Hall. specialize (Hall d).
  rewrite Hall in Hd; [done|].
  rewrite !in_app_iff. right. left. right. by left.
Qed.

Lemma shifted_copy (a : ascii) (X T Y : list ascii) :
  a :: X ++ T = X ++ Y -> exists c, In c (a :: X) /\ Y = c :: T.
Proof.
  revert a. induction X as [|x X IH]; intros a; simpl.
  - intros <-. exists a. auto.
  - intros H. injection H as -> H. apply IH in H as (c & Hc & ->).
    exists c. split; [by right|done].
Qed.

Lemma delimiter_at_end (U P R : list ascii) (q d : ascii) :
  Forall (fun c => is_delimiter c = false) U ->
  is_delimiter d = true ->
  U ++ [q] = P ++ d :: R -> R = [].
Proof.
  revert P. induction U as [|u U IH]; intros P HU Hd; simpl.
  - destruct P as [|p P]; simpl; intros H; injection H as _ H; [done|].
    by destruct P.
  - apply Forall_cons in HU as [Hu HU].
    destruct P as [|p P]; simpl; intros H; injection H as -> H.
    + congruence.
    + by apply (IH P).
Qed.

(** The name between two ordinary characters, the whole in double quotes. *)
Lemma search_quoted_inner (X : string) (a b : ascii) :
  no_delimiter X = true ->
  is_delimiter a = false -> is_delimiter b = false -> b <> backslash ->
  search (usage_pattern X) (double_quote :: a :: chars X ++ [b; double_quote]) = false.
Proof.
  intros HX Ha Hb Hbs. apply no_delimiter_chars in HX.
  apply not_true_is_false. intros H.
  apply search_usage_pattern in H as (pre & l & r & post & Hl & Hr & Heq).
  apply enclosure_last in Hl as (l0 & d & -> & Hd).
  apply enclosure_first in Hr as (c & r' & -> & Hc).
  rewrite <- !app_assoc in Heq. simpl in Heq. rewrite app_assoc in Heq.
  destruct (pre ++ l0) as [|p P]; simpl in Heq; injection Heq as Hq Heq.
  - apply shifted_copy in Heq as (c' & Hin & Heq).
    injection Heq as <- Heq.
    assert (Hnd : is_delimiter c = false).
    { destruct Hin as [<-|Hin]; [done|].
      rewrite List.Forall_forall in HX. by apply HX. }
    destruct Hc as [Hc|[r'' ->]]; [congruence|].
    simpl in Heq. injection Heq as Heq _. congruence.
  - assert (Hnil : chars X ++ c :: r' ++ post = []).
    { apply (delimiter_at_end (a :: chars X ++ [b]) P _ double_quote d);
        [|done|].
      - constructor; [done|]. apply Forall_app. split; [done|]. by constructor.
      - simpl. by rewrite <- app_assoc. }
    apply app_eq_nil in Hnil as [_ Hnil]. discriminate.
Qed.

(** C1. For a name [X] without a percent sign or a quote in it, the truth
    value the matcher tests for a subject whose attributes serialize to
    [text] is true exactly when [X] stands in [text] between two
    enclosures, each being a percent sign, a double quote or a single quote,
    the quote possibly preceded by an escaped backslash (two backslash
    characters); the two enclosures need not be the same.  In particular
    the texts %X% (bare or in double quotes) and X in single quotes match,
    while aXb (bare or in double quotes) and X alone do not. *)
Theorem C1_enclosure_sensitive_match (X : string) :
  no_delimiter X = true ->
  (forall str_attributes subject text out,
      str_attributes subject = Returns text ->
      find_occurrence_in_attributes str_attributes subject (usage_pattern X) out
        = (Returns true, out) <-> enclosed X text)
  /\ re_search (usage_pattern X)
       (str double_quote +:+ "%" +:+ X +:+ "%" +:+ str double_quote) = true
  /\ re_search (usage_pattern X) ("%" +:+ X +:+ "%") = true
  /\ re_search (usage_pattern X) (str single_quote +:+ X +:+ str single_quote) = true
  /\ re_search (usage_pattern X)
       (str double_quote +:+ "a" +:+ X +:+ "b" +:+ str double_quote) = false
  /\ re_search (usage_pattern X) ("a" +:+ X +:+ "b") = false
  /\ re_search (usage_pattern X) X = false.
Proof.
  intros HX. repeat split.
  - unfold find_occurrence_in_attributes. rewrite H. unfold ret.
    intros Heq. apply re_search_enclosed. congruence.
  - unfold find_occurrence_in_attributes. rewrite H. unfold ret.
    intros Henc. apply re_search_enclosed in Henc. by rewrite Henc.
  - apply re_search_enclosed.
    exists (str double_quote), (str percent), (str percent), (str double_quote).
    simpl. auto.
  - apply re_search_enclosed.
    exists EmptyString, (str percent), (str percent), EmptyString.
    split; [simpl; auto|]. split; [simpl; auto|].
    apply chars_inj. rewrite !chars_app. simpl.
    repeat (rewrite ?chars_app; simpl). by rewrite ?app_nil_r.
  - apply re_search_enclosed.
    exists EmptyString, (str single_quote), (str single_quote), EmptyString.
    split; [simpl; auto 6|]. split; [simpl; auto 6|].
    apply chars_inj. rewrite !chars_app. simpl.
    repeat (rewrite ?chars_app; simpl). by rewrite ?app_nil_r.
  - unfold re_search.
    replace (chars (str double_quote +:+ "a" +:+ X +:+ "b" +:+ str double_quote))
      with (double_quote :: "a"%char :: chars X ++ ["b"%char; double_quote])
      by (rewrite !chars_app; reflexivity).
    by apply search_quoted_inner.
  - unfold re_search. apply search_no_delimiter.
    rewrite !chars_app. apply Forall_app. split; [by constructor|].
    apply Forall_app. split; [by apply no_delimiter_chars|by constructor].
  - unfold re_search. apply search_no_delimiter. by apply no_delimiter_chars.
Qed.

Lemma C1_enclosure_sensitive_match_witness :
  no_delimiter "userId" = true /\
  re_search (usage_pattern "userId") (str single_quote +:+ "userId" +:+ str single_quote)
    = true /\
  re_search (usage_pattern "userId") "userId" = false.
Proof.
  split; [reflexivity|].
  destruct (C1_enclosure_sensitive_match "userId" eq_refl)
    as (_ & _ & _ & Hquoted & _ & _ & Hbare).
  exact (conj Hquoted Hbare).
Defined.

End Pattern.

(** ** The usage mapping *)
Section Dict.

Lemma default_nonempty (vs : list Entity) : default [] (nonempty vs) = vs.
Proof. by destruct vs. Qed.

Lemma nonempty_snoc (vs : list Entity) (v : Entity) :
  nonempty (vs ++ [v]) = Some (vs ++ [v]).
Proof. by destruct vs. Qed.

Lemma get_setdefault_append_eq (k : string) (v : Entity) (d : dict) :
  get k (setdefault_append k v d) = Some (default [] (get k d) ++ [v]).
Proof.
  induction d as [|[k' vs] d IH]; simpl.
  - by rewrite String.eqb_refl.
  - destruct (String.eqb_spec k' k) as [->|Hne]; simpl.
    + by rewrite String.eqb_refl.
    + by destruct (String.eqb_spec k' k).
Qed.

Lemma get_setdefault_append_ne (k k' : string) (v : Entity) (d : dict) :
  k <> k' -> get k' (setdefault_append k v d) = get k' d.
Proof.
  intros Hne. induction d as [|[k0 vs] d IH]; simpl.
  - by destruct (String.eqb_spec k k').
  - destruct (String.eqb_spec k0 k) as [->|Hne0]; simpl.
    + by destruct (String.eqb_spec k k').
    + by rewrite IH.
Qed.

Lemma get_append_all (k n : string) (vs h : list Entity) (d : dict) :
  get n d = nonempty h ->
  get n (append_all k vs d) = nonempty (if String.eqb k n then h ++ vs else h).
Proof.
  unfold append_all. revert h d. induction vs as [|v vs IH]; intros h d Hget; simpl.
  - rewrite app_nil_r. by destruct (String.eqb k n).
  - destruct (String.eqb k n) eqn:E.
    + apply String.eqb_eq in E as ->.
      rewrite (IH (h ++ [v])).
      * by rewrite <- app_assoc.
      * by rewrite get_setdefault_append_eq, Hget, default_nonempty, nonempty_snoc.
    + rewrite (IH h).
      * done.
      * apply String.eqb_neq in E. by rewrite get_setdefault_append_ne.
Qed.

Lemma keys_get (k : string) (d : dict) : In k (keys d) <-> get k d <> None.
Proof.
  induction d as [|[k' vs] d IH]; simpl.
  - tauto.
  - destruct (String.eqb_spec k' k) as [->|Hne].
    + split; [done|auto].
    + rewrite <- IH. tauto.
Qed.

Lemma keys_setdefault_append (k : string) (v : Entity) (d : dict) :
  keys (setdefault_append k v d) =
  match get k d with Some _ => keys d | None => keys d ++ [k] end.
Proof.
  induction d as [|[k' vs] d IH]; simpl; [done|].
  destruct (String.eqb_spec k' k) as [->|Hne]; simpl; [done|].
  rewrite IH. by destruct (get k d).
Qed.

Lemma NoDup_keys_setdefault_append (k : string) (v : Entity) (d : dict) :
  List.NoDup (keys d) -> List.NoDup (keys (setdefault_append k v d)).
Proof.
  intros Hnd. rewrite keys_setdefault_append.
  destruct (get k d) eqn:Hget; [done|].
  apply NoDup_ListNoDup, NoDup_app. split; [by apply NoDup_ListNoDup|].
  split; [|apply NoDup_singleton].
  intros x Hx ->%list_elem_of_singleton.
  apply list_elem_of_In, keys_get in Hx. congruence.
Qed.

Lemma NoDup_keys_append_all (k : string) (vs : list Entity) (d : dict) :
  List.NoDup (keys d) -> List.NoDup (keys (append_all k vs d)).
Proof.
  unfold append_all. revert d. induction vs as [|v vs IH]; intros d Hnd; simpl.
  - done.
  - by apply IH, NoDup_keys_setdefault_append.
Qed.

End Dict.

(** ** The scan *)
Section Scan.

Variable str_attributes : Entity -> result string.

Local Notation find_occurrence := (find_occurrence_in_attributes str_attributes).
Local Notation scan := (scan_subjects str_attributes).
Local Notation scan_all := (scan_data_elements str_attributes).
Local Notation pattern_of d := (usage_pattern (name (attributes d))).

Lemma find_occurrence_run (subject : Entity) (p : Re.regex) (out : list printed) :
  find_occurrence subject p out =
  match str_attributes subject with
  | Returns text => (Returns (re_search p text), out)
  | Raises TypeError => (Returns false, out ++ [FailedAttributes subject])
  | Raises e => (Raises e, out)
  end.
Proof.
  unfold find_occurrence_in_attributes.
  destruct (str_attributes subject) as [text|[]]; reflexivity.
Qed.

Lemma find_occurrence_returns subject p out found out' :
  find_occurrence subject p out = (Returns found, out') ->
  found = occurs str_attributes subject p /\
  out' = out ++ (if fails str_attributes subject then [FailedAttributes subject] else []).
Proof.
  rewrite find_occurrence_run. unfold occurs, fails.
  destruct (str_attributes subject) as [text|[]]; intros H; inversion H; subst;
    by rewrite ?app_nil_r.
Qed.


Lemma find_occurrence_result subject p out1 out2 :
  fst (find_occurrence subject p out1) = fst (find_occurrence subject p out2).
Proof.
  rewrite !find_occurrence_run.
  by destruct (str_attributes subject) as [text|[]].
Qed.

Lemma matching_cons d subject subjects :
  matching str_attributes d (subject :: subjects) =
  (if negb (py_eq subject d) && occurs str_attributes subject (pattern_of d)
   then [subject] else []) ++ matching str_attributes d subjects.
Proof.
  unfold matching. rewrite filter_cons.
  destruct (negb (py_eq subject d) && occurs str_attributes subject (pattern_of d));
    by case_decide.
Qed.

Lemma failures_cons d subject subjects :
  failures str_attributes d (subject :: subjects) =
  (if negb (py_eq subject d) && fails str_attributes subject
   then [FailedAttributes subject] else []) ++ failures str_attributes d subjects.
Proof.
  unfold failures. rewrite filter_cons.
  destruct (negb (py_eq subject d) && fails str_attributes subject);
    by case_decide.
Qed.

Lemma scan_returns d subjects results out results' out' :
  scan d (pattern_of d) subjects results out = (Returns results', out') ->
  results' = append_all (name (attributes d)) (matching str_attributes d subjects) results
  /\ out' = out ++ failures str_attributes d subjects.
Proof.
  revert results out. induction subjects as [|subject subjects IH];
    intros results out; simpl.
  - unfold ret. intros H. inversion H; subst. by rewrite app_nil_r.
  - rewrite matching_cons, failures_cons.
    destruct (py_eq subject d) eqn:Heq; simpl.
    + apply IH.
    + unfold bind.
      destruct (find_occurrence subject (pattern_of d) out) as [[found|e] out1] eqn:Hf;
        [|discriminate].
      apply find_occurrence_returns in Hf as [-> ->].
      destruct (occurs str_attributes subject (pattern_of d)); intros H;
        apply IH in H as [-> ->]; by rewrite <- app_assoc.
Qed.


Lemma scan_result d p subjects results out1 out2 :
  fst (scan d p subjects results out1) = fst (scan d p subjects results out2).
Proof.
  revert results out1 out2. induction subjects as [|subject subjects IH];
    intros results out1 out2; simpl.
  - done.
  - destruct (py_eq subject d); [apply IH|].
    unfold bind.
    pose proof (find_occurrence_result subject p out1 out2) as Hf.
    destruct (find_occurrence subject p out1) as [[found1|e1] o1],
             (find_occurrence subject p out2) as [[found2|e2] o2];
      simpl in Hf; try discriminate; [|by injection Hf as ->].
    injection Hf as ->. destruct found2; apply IH.
Qed.

Lemma hits_cons n d todo subjects :
  hits str_attributes n (d :: todo) subjects =
  (if String.eqb (name (attributes d)) n then matching str_attributes d subjects else [])
  ++ hits str_attributes n todo subjects.
Proof. reflexivity. Qed.

Lemma scan_all_returns todo subjects results out results' out' :
  scan_all todo subjects results out = (Returns results', out') ->
  (List.NoDup (keys results) -> List.NoDup (keys results'))
  /\ (forall n h, get n results = nonempty h ->
                  get n results' = nonempty (h ++ hits str_attributes n todo subjects))
  /\ out' = out ++ all_failures str_attributes todo subjects.
Proof.
  revert results out. induction todo as [|d todo IH]; intros results out;
    cbn [scan_data_elements].
  - unfold ret. intros H. inversion H; subst. simpl. split; [done|].
    split; [|by rewrite app_nil_r]. intros n h Hget. by rewrite app_nil_r.
  - unfold bind.
    destruct (scan d (pattern_of d) subjects results out) as [[results1|e] out1] eqn:Hs;
      [|discriminate].
    apply scan_returns in Hs as [-> ->]. intros H.
    apply IH in H as (Hnd & Hget & ->). split; [|split].
    + intros Hk. by apply Hnd, NoDup_keys_append_all.
    + intros n h Hh. rewrite hits_cons, app_assoc. apply Hget.
      rewrite (get_append_all _ n _ h); [|done].
      destruct (String.eqb (name (attributes d)) n); [done|by rewrite app_nil_r].
    + by rewrite <- app_assoc.
Qed.


Lemma scan_all_result todo subjects results out1 out2 :
  fst (scan_all todo subjects results out1) = fst (scan_all todo subjects results out2).
Proof.
  revert results out1 out2. induction todo as [|d todo IH];
    intros results out1 out2; simpl.
  - done.
  - unfold bind.
    pose proof (scan_result d (pattern_of d) subjects results out1 out2) as Hs.
    destruct (scan d (pattern_of d) subjects results out1) as [[r1|e1] o1],
             (scan d (pattern_of d) subjects results out2) as [[r2|e2] o2];
      simpl in Hs; try discriminate; [|exact Hs].
    injection Hs as ->. apply IH.
Qed.

(** What a run that returns has computed. *)
Lemma usage_returns data_elements rule_comps extensions out results out' :
  find_data_element_usage str_attributes data_elements rule_comps extensions out
    = (Returns results, out') ->
  List.NoDup (keys results)
  /\ (forall n, get n results =
        nonempty (hits str_attributes n data_elements
                    (data_elements ++ rule_comps ++ extensions)))
  /\ out' = out ++ all_failures str_attributes data_elements
                     (data_elements ++ rule_comps ++ extensions).
Proof.
  unfold find_data_element_usage. intros H.
  apply scan_all_returns in H as (Hnd & Hget & ->).
  split; [apply Hnd; constructor|]. split; [|done].
  intros n. by apply (Hget n []).
Qed.

End Scan.

(** ** What is recorded under a name *)
Section Recorded.

Variable str_attributes : Entity -> result string.

Local Notation pattern_of d := (usage_pattern (name (attributes d))).

Lemma py_eq_refl (e : Entity) : py_eq e e = true.
Proof.
  unfold py_eq. rewrite !String.eqb_refl. simpl.
  by rewrite bool_decide_eq_true_2.
Qed.

Lemma in_matching (c d : Entity) (subjects : list Entity) :
  In c (matching str_attributes d subjects) <->
  In c subjects /\ py_eq c d = false /\ occurs str_attributes c (pattern_of d) = true.
Proof.
  unfold matching. rewrite <- !list_elem_of_In, list_elem_of_filter.
  rewrite andb_true_iff, negb_true_iff. tauto.
Qed.


Lemma in_hits (c : Entity) (n : string) (data_elements subjects : list Entity) :
  In c (hits str_attributes n data_elements subjects) <->
  exists d, In d data_elements /\ name (attributes d) = n /\
            In c (matching str_attributes d subjects).
Proof.
  unfold hits. rewrite in_flat_map. split.
  - intros (d & Hd & Hc). destruct (String.eqb_spec (name (attributes d)) n); [|done].
    eauto.
  - intros (d & Hd & Hn & Hc). exists d. split; [done|].
    by rewrite <- Hn, String.eqb_refl.
Qed.

Lemma hits_absent (n : string) (data_elements subjects : list Entity) :
  ~ In n (names data_elements) -> hits str_attributes n data_elements subjects = [].
Proof.
  induction data_elements as [|d rest IH]; simpl; [done|]. intros Hn.
  destruct (String.eqb_spec (name (attributes d)) n) as [Heq|_]; [tauto|].
  apply IH. tauto.
Qed.

Lemma hits_unique (d : Entity) (data_elements subjects : list Entity) :
  List.NoDup (names data_elements) -> In d data_elements ->
  hits str_attributes (name (attributes d)) data_elements subjects =
  matching str_attributes d subjects.
Proof.
  induction data_elements as [|d0 rest IH]; simpl; [done|].
  intros Hnd Hin. inversion Hnd as [|? ? Hfresh Hrest]; subst.
  destruct Hin as [->|Hin].
  - rewrite String.eqb_refl, hits_absent; [by rewrite app_nil_r|done].
  - destruct (String.eqb_spec (name (attributes d0)) (name (attributes d))) as [Heq|_].
    + destruct Hfresh. rewrite Heq.
      exact (in_map (fun e => name (attributes e)) _ _ Hin).
    + by apply IH.
Qed.

Lemma nonempty_Some (h vs : list Entity) : nonempty h = Some vs -> vs = h /\ h <> [].
Proof. destruct h; [done|]. by intros [= <-]. Qed.

Lemma nonempty_None (h : list Entity) : nonempty h = None <-> h = [].
Proof. by destruct h. Qed.

End Recorded.

(** ** The usage matcher *)





(** C5, as stated, fails when two data elements bear one name: each is
    recorded under that name by the scan of the other. *)
Lemma C5_recorded_under_own_name :
  exists results vs,
    find_data_element_usage Sample.serialize
      [Sample.user_id; Sample.user_id_again] [] [] [] = (Returns results, [])
    /\ get (name (attributes Sample.user_id)) results = Some vs
    /\ In Sample.user_id vs.
Proof.
  eexists. eexists. split; [vm_compute; reflexivity|].
  split; [vm_compute; reflexivity|]. right. by left.
Qed.

(** C5, amended. When the names of the data elements are pairwise distinct,
    no entity recorded under the name of a data element [d] is [d] itself:
    each differs from [d] in its contents. *)
Theorem C5_no_self_match
    (str_attributes : Entity -> result string)
    (data_elements rule_comps extensions : list Entity)
    (out out' : list printed) (results : dict)
    (d c : Entity) (vs : list Entity) :
  List.NoDup (names data_elements) ->
  find_data_element_usage str_attributes data_elements rule_comps extensions out
    = (Returns results, out') ->
  In d data_elements ->
  get (name (attributes d)) results = Some vs ->
  In c vs ->
  py_eq c d = false /\ c <> d.
Proof.
  intros Hnd Hrun Hd Hget Hc.
  apply usage_returns in Hrun as (_ & Hres & _).
  rewrite Hres, hits_unique in Hget by done.
  apply nonempty_Some in Hget as [-> _].
  apply in_matching in Hc as (_ & Hne & _). split; [done|].
  intros ->. by rewrite py_eq_refl in Hne.
Qed.

Lemma C5_no_self_match_witness :
  py_eq Sample.send_beacon Sample.user_id = false
  /\ Sample.send_beacon <> Sample.user_id.
Proof.
  apply (C5_no_self_match Sample.serialize
           [Sample.user_id; Sample.cart_total] [Sample.send_beacon] [] [] []
           [("userId"%string, [Sample.send_beacon])]
           Sample.user_id Sample.send_beacon [Sample.send_beacon]).
  - repeat constructor; simpl; intuition discriminate.
  - vm_compute. reflexivity.
  - by left.
  - reflexivity.
  - by left.
Defined.

(** C6, as stated, fails when two data elements bear one name: the name
    of [user_id] is a key although no candidate other than [user_id] itself
    matches its pattern, for the scan of its namesake found [user_id]. *)
Lemma C6_key_without_own_match :
  let subjects := [Sample.user_id; Sample.user_id_again] in
  exists results,
    find_data_element_usage Sample.serialize_type_error subjects [] [] []
      = (Returns results, [FailedAttributes Sample.user_id_again])
    /\ (forall c, In c (subjects ++ [] ++ []) -> py_eq c Sample.user_id = false ->
          occurs Sample.serialize_type_error c
            (usage_pattern (name (attributes Sample.user_id))) = false)
    /\ In (name (attributes Sample.user_id)) (keys results).
Proof.
  eexists. split; [vm_compute; reflexivity|]. split.
  - intros c [<-|[<-|[]]]; vm_compute; congruence.
  - by left.
Qed.

(** C6, amended. When the names of the data elements are pairwise distinct
    and no candidate other than [d] matches the pattern of [d], the name of
    [d] is not a key of the returned mapping; and, whatever the names, no
    key of the mapping is bound to an empty list. *)
Theorem C6_unused_name_is_absent
    (str_attributes : Entity -> result string)
    (data_elements rule_comps extensions : list Entity)
    (out out' : list printed) (results : dict) (d : Entity) :
  find_data_element_usage str_attributes data_elements rule_comps extensions out
    = (Returns results, out') ->
  (forall n, get n results <> Some [])
  /\ (List.NoDup (names data_elements) ->
      In d data_elements ->
      (forall c, In c (data_elements ++ rule_comps ++ extensions) ->
                 py_eq c d = false ->
                 occurs str_attributes c (usage_pattern (name (attributes d))) = false) ->
      get (name (attributes d)) results = None
      /\ ~ In (name (attributes d)) (keys results)).
Proof.
  intros Hrun. apply usage_returns in Hrun as (_ & Hres & _). split.
  - intros n Hn. rewrite Hres in Hn. apply nonempty_Some in Hn as [<- Hne]. done.
  - intros Hnd Hd Hnone.
    assert (Hget : get (name (attributes d)) results = None).
    { rewrite Hres, hits_unique by done. apply nonempty_None.
      destruct (matching str_attributes d _) as [|c l] eqn:Hm; [done|].
      assert (Hc : In c (matching str_attributes d
                            (data_elements ++ rule_comps ++ extensions))).
      { rewrite Hm. by left. }
      apply in_matching in Hc as (Hin & Hne & Hocc).
      rewrite (Hnone c Hin Hne) in Hocc. discriminate. }
    split; [done|]. rewrite keys_get, Hget. intros H. by apply H.
Qed.

Lemma C6_unused_name_is_absent_witness :
  get "cartTotal" [("userId"%string, [Sample.send_beacon])] = None
  /\ ~ In "cartTotal"%string (keys [("userId"%string, [Sample.send_beacon])]).
Proof.
  apply (C6_unused_name_is_absent Sample.serialize
           [Sample.user_id; Sample.cart_total] [Sample.send_beacon] [] [] []
           [("userId"%string, [Sample.send_beacon])] Sample.cart_total).
  - vm_compute. reflexivity.
  - repeat constructor; simpl; intuition discriminate.
  - right. by left.
  - intros c [<-|[<-|[<-|[]]]]; vm_compute; congruence.
Defined.



(** C9. The mapping the matcher returns, or the exception it raises, is a
    function of the three collections alone: a second run on the same
    collections gives the same keys and the same lists, whatever has been
    printed before. *)
Theorem C9_same_input_same_mapping
    (str_attributes : Entity -> result string)
    (data_elements rule_comps extensions : list Entity)
    (out1 out2 : list printed) :
  fst (find_data_element_usage str_attributes data_elements rule_comps extensions out1)
  = fst (find_data_element_usage str_attributes data_elements rule_comps extensions out2).
Proof. unfold find_data_element_usage. apply scan_all_result. Qed.

(** ** The two tables *)

Lemma keys_are_names
    (str_attributes : Entity -> result string)
    (data_elements rule_comps extensions : list Entity)
    (out out' : list printed) (results : dict) (n : string) :
  find_data_element_usage str_attributes data_elements rule_comps extensions out
    = (Returns results, out') ->
  In n (keys results) -> In n (names data_elements).
Proof.
  intros Hrun Hn. apply usage_returns in Hrun as (_ & Hres & _).
  apply keys_get in Hn. rewrite Hres in Hn.
  destruct (in_dec string_dec n (names data_elements)) as [Hin|Hout]; [done|].
  rewrite hits_absent in Hn by done. done.
Qed.

Lemma not_used_size (data_elements : list Entity) (de_usage : dict) :
  List.NoDup (keys de_usage) ->
  (forall n, In n (keys de_usage) -> In n (names data_elements)) ->
  length (keys de_usage) + size (not_used data_elements de_usage)
  = size (list_to_set (names data_elements) : gset string).
Proof.
  intros Hnd Hsub. unfold not_used. fold (names data_elements).
  set (N := list_to_set (names data_elements) : gset string).
  set (K := list_to_set (keys de_usage) : gset string).
  assert (HK : size K = length (keys de_usage)).
  { apply size_list_to_set. by apply NoDup_ListNoDup. }
  assert (Hincl : K ⊆ N).
  { intros n Hn. apply elem_of_list_to_set, list_elem_of_In in Hn.
    apply elem_of_list_to_set, list_elem_of_In. by apply Hsub. }
  rewrite size_difference by done.
  apply subseteq_size in Hincl. lia.
Qed.

(** C4, as stated, fails when two data elements bear one name: the two
    tables together then hold one name for two data elements. *)
Lemma C4_shared_name_counted_once :
  let data_elements := [Sample.user_id; Sample.user_id_again] in
  exists results,
    find_data_element_usage Sample.serialize data_elements [] [] []
      = (Returns results, [])
    /\ length (keys results) + size (not_used data_elements results) = 1
    /\ length data_elements = 2.
Proof.
  eexists. split; [vm_compute; reflexivity|]. split; [|reflexivity].
  match goal with |- _ + size ?s = _ => assert (Hempty : s = ∅) end.
  { unfold not_used. simpl. set_solver. }
  rewrite Hempty, size_empty. reflexivity.
Qed.

(** C4, amended. The keys of the usage mapping and the rows of the unused
    table together count the distinct names of the data elements, hence the
    data elements themselves when their names are pairwise distinct; and no
    name is both a key of the mapping and a row of the unused table. *)
Theorem C4_used_and_unused_cover_names
    (str_attributes : Entity -> result string)
    (data_elements rule_comps extensions : list Entity)
    (out out' : list printed) (results : dict) :
  find_data_element_usage str_attributes data_elements rule_comps extensions out
    = (Returns results, out') ->
  length (keys results) + size (not_used data_elements results)
    = size (list_to_set (names data_elements) : gset string)
  /\ (List.NoDup (names data_elements) ->
      length (keys results) + size (not_used data_elements results)
        = length data_elements)
  /\ (forall n, In n (keys results) -> n ∉ not_used data_elements results).
Proof.
  intros Hrun.
  assert (Hcount : length (keys results) + size (not_used data_elements results)
                   = size (list_to_set (names data_elements) : gset string)).
  { apply not_used_size.
    - by apply usage_returns in Hrun as (Hnd & _).
    - intros n. by apply (keys_are_names _ _ _ _ _ _ _ _ Hrun). }
  split; [done|]. split.
  - intros Hnd. rewrite Hcount, size_list_to_set by by apply NoDup_ListNoDup.
    unfold names. by rewrite length_map.
  - intros n Hn. unfold not_used. apply not_elem_of_difference. right.
    by apply elem_of_list_to_set, list_elem_of_In.
Qed.

Lemma C4_used_and_unused_cover_names_witness :
  let data_elements := [Sample.user_id; Sample.cart_total] in
  let results := [("userId"%string, [Sample.send_beacon])] in
  length (keys results) + size (not_used data_elements results) = length data_elements.
Proof.
  intros data_elements results.
  destruct (C4_used_and_unused_cover_names Sample.serialize
              data_elements [Sample.send_beacon] [] [] [] results)
    as (_ & Hcount & _).
  - vm_compute. reflexivity.
  - apply Hcount. repeat constructor; simpl; intuition discriminate.
Defined.

(** ** Report builder *)

Lemma contains_unfold (sub s : string) :
  contains sub s =
  String.prefix sub s ||
  match s with EmptyString => false | String _ rest => contains sub rest end.
Proof. by destruct s. Qed.

Lemma search_category_unfold (s : string) :
  search_category s =
  if String.prefix "::actions::" s then Some "actions"%string
  else if String.prefix "::conditions::" s then Some "conditions"%string
  else if String.prefix "::events::" s then Some "events"%string
  else match s with
       | EmptyString => None
       | String _ rest => search_category rest
       end.
Proof. by destruct s. Qed.

(** The category found is that of a marker the descriptor contains. *)
Lemma search_category_Some (s cat : string) :
  search_category s = Some cat ->
  (cat = "actions"%string /\ contains "::actions::" s = true)
  \/ (cat = "conditions"%string /\ contains "::conditions::" s = true)
  \/ (cat = "events"%string /\ contains "::events::" s = true).
Proof.
  induction s as [|c s IH]; [discriminate|].
  rewrite search_category_unfold,
    (contains_unfold "::actions::"), (contains_unfold "::conditions::"),
    (contains_unfold "::events::").
  destruct (String.prefix "::actions::" (String c s)); [intros [= <-]; auto|].
  destruct (String.prefix "::conditions::" (String c s)); [intros [= <-]; auto|].
  destruct (String.prefix "::events::" (String c s)); [intros [= <-]; auto|].
  simpl. exact IH.
Qed.

Lemma search_category_None (s : string) :
  search_category s = None ->
  contains "::actions::" s = false /\ contains "::conditions::" s = false
  /\ contains "::events::" s = false.
Proof.
  induction s as [|c s IH]; [done|].
  rewrite search_category_unfold,
    (contains_unfold "::actions::"), (contains_unfold "::conditions::"),
    (contains_unfold "::events::").
  destruct (String.prefix "::actions::" (String c s)); [discriminate|].
  destruct (String.prefix "::conditions::" (String c s)); [discriminate|].
  destruct (String.prefix "::events::" (String c s)); [discriminate|].
  simpl. exact IH.
Qed.

Lemma usage_rows_in (k : string) (subjects : list Entity) (rs : list row) (r : row) :
  usage_rows k subjects = Returns rs -> In r rs ->
  exists subj, In subj subjects /\ usage_row k subj = Returns r.
Proof.
  revert rs. induction subjects as [|subj subjects IH]; intros rs; simpl.
  - intros [= <-] [].
  - destruct (usage_row k subj) as [r0|e] eqn:Hrow; [|discriminate].
    destruct (usage_rows k subjects) as [rs0|e]; [|discriminate].
    intros [= <-] [<-|Hin]; [eauto|].
    destruct (IH rs0 eq_refl Hin) as (subj' & Hs & Hr). eauto.
Qed.

Lemma output_list_in (de_usage : dict) (rows : list row) (r : row) :
  output_list de_usage = Returns rows -> In r rows ->
  exists k vs subj, In (k, vs) de_usage /\ In subj vs /\ usage_row k subj = Returns r.
Proof.
  revert rows. induction de_usage as [|[k vs] rest IH]; intros rows; simpl.
  - intros [= <-] [].
  - destruct (usage_rows k vs) as [usage|e] eqn:Hrows; [|discriminate].
    destruct (output_list rest) as [rows0|e]; [|discriminate].
    intros [= <-] Hin. apply in_app_or in Hin as [Hin|Hin].
    + destruct (usage_rows_in _ _ _ _ Hrows Hin) as (subj & Hs & Hr).
      exists k, vs, subj. auto.
    + destruct (IH rows0 eq_refl Hin) as (k' & vs' & subj & Hk & Hs & Hr).
      exists k', vs', subj. auto.
Qed.


(** C8, as stated, fails on a descriptor that holds two markers: the row
    takes the category of the leftmost marker, here [rule_events] for a
    rule component whose descriptor contains the actions marker.  The
    assertion of line 90 lets such a property through. *)
Lemma C8_leftmost_marker_wins :
  let rule_comps := [Sample.two_markers; Sample.no_marker] in
  exists de_usage r,
    assert_categories rule_comps = Returns tt
    /\ find_data_element_usage Sample.serialize [Sample.user_id] rule_comps [] []
       = (Returns de_usage, [])
    /\ output_list de_usage = Returns [r]
    /\ get (data_element_name r) de_usage = Some [Sample.two_markers]
    /\ type Sample.two_markers = "rule_components"%string
    /\ in_category "::actions::" Sample.two_markers = true
    /\ usage_in_type r = "rule_events"%string
    /\ usage_in_type r <> "rule_actions"%string.
Proof.
  eexists. eexists. split; [vm_compute; reflexivity|].
  split; [vm_compute; reflexivity|]. split; [vm_compute; reflexivity|].
  repeat split; try (vm_compute; reflexivity). discriminate.
Qed.

(** C8, amended. Every row of the used table comes from a matching entity
    recorded in the mapping.  If that entity is not a rule component, the
    row carries its type and no rule name.  If it is a rule component, the
    row carries the name of its rule; and when its descriptor contains
    exactly one of the three markers, the usage type is [rule_actions],
    [rule_conditions] or [rule_events] accordingly. *)
Theorem C8_rows_classified
    (de_usage : dict) (rows : list row) (r : row) :
  output_list de_usage = Returns rows ->
  In r rows ->
  exists k vs subj,
    In (k, vs) de_usage /\ In subj vs
    /\ data_element_name r = k
    /\ usage_in_name r = name (attributes subj)
    /\ (type subj <> "rule_components"%string ->
        usage_in_type r = type subj /\ usage_in_rule_name r = None)
    /\ (type subj = "rule_components"%string ->
        usage_in_rule_name r = Some (rule_name subj)
        /\ (in_category "::actions::" subj = true ->
            in_category "::conditions::" subj = false ->
            in_category "::events::" subj = false ->
            usage_in_type r = "rule_actions"%string)
        /\ (in_category "::conditions::" subj = true ->
            in_category "::actions::" subj = false ->
            in_category "::events::" subj = false ->
            usage_in_type r = "rule_conditions"%string)
        /\ (in_category "::events::" subj = true ->
            in_category "::actions::" subj = false ->
            in_category "::conditions::" subj = false ->
            usage_in_type r = "rule_events"%string)).
Proof.
  intros Hout Hin.
  destruct (output_list_in _ _ _ Hout Hin) as (k & vs & subj & Hk & Hs & Hrow).
  exists k, vs, subj. split; [done|]. split; [done|].
  unfold usage_row in Hrow.
  destruct (String.eqb_spec (type subj) "rule_components") as [Ht|Ht];
    simpl in Hrow.
  - destruct (search_category _) as [cat|] eqn:Hcat; [|discriminate].
    injection Hrow as <-. simpl. split; [done|]. split; [done|].
    split; [done|]. intros _. split; [done|].
    unfold in_category.
    apply search_category_Some in Hcat as [[-> H]|[[-> H]|[-> H]]];
      repeat split; intros; congruence.
  - injection Hrow as <-. simpl. split; [done|]. split; [done|].
    split; [done|]. intros Ht'. by destruct Ht.
Qed.

Lemma C8_rows_classified_witness :
  exists subj,
    In subj [Sample.send_beacon; Sample.cart_total]
    /\ "Send beacon"%string = name (attributes subj)
    /\ (type subj = "rule_components"%string ->
        Some "Track Purchase"%string = Some (rule_name subj)).
Proof.
  destruct (C8_rows_classified
              [("userId"%string, [Sample.send_beacon; Sample.cart_total])]
              [ {| data_element_name := "userId"; usage_in_type := "rule_actions";
                   usage_in_name := "Send beacon";
                   usage_in_rule_name := Some "Track Purchase"%string |};
                {| data_element_name := "userId"; usage_in_type := "data_elements";
                   usage_in_name := "cartTotal"; usage_in_rule_name := None |} ]
              {| data_element_name := "userId"; usage_in_type := "rule_actions";
                 usage_in_name := "Send beacon";
                 usage_in_rule_name := Some "Track Purchase"%string |})
    as (k & vs & subj & Hk & Hs & _ & Hname & _ & Hrule).
  - vm_compute. reflexivity.
  - by left.
  - destruct Hk as [[= <- <-]|[]].
    exists subj. split; [exact Hs|]. split; [exact Hname|].
    intros Ht. by destruct (Hrule Ht) as [Hr _].
Defined.

(** ** Rule component categories *)

Lemma categories_total (rule_comps : list Entity) :
  length (rule_actions rule_comps) + length (rule_conditions rule_comps)
  + length (rule_events rule_comps)
  = list_sum (map markers_in rule_comps).
Proof.
  unfold rule_actions, rule_conditions, rule_events.
  induction rule_comps as [|rc rest IH]; [done|].
  rewrite !filter_cons.
  change (list_sum (map markers_in (rc :: rest)))
    with (markers_in rc + list_sum (map markers_in rest)).
  rewrite <- IH. unfold markers_in.
  destruct (in_category "::actions::" rc), (in_category "::conditions::" rc),
    (in_category "::events::" rc); repeat case_decide; try congruence; simpl; lia.
Qed.

Lemma assert_categories_run (rule_comps : list Entity) :
  assert_categories rule_comps =
  if Nat.eqb (length rule_comps) (list_sum (map markers_in rule_comps))
  then Returns tt else Raises AssertionError.
Proof. unfold assert_categories. by rewrite categories_total. Qed.

Lemma markers_all_one (rule_comps : list Entity) :
  List.Forall (fun rc => markers_in rc = 1) rule_comps ->
  list_sum (map markers_in rule_comps) = length rule_comps.
Proof. induction 1 as [|rc rest H _ IH]; simpl; [done|lia]. Qed.

Lemma markers_at_most_one (rule_comps : list Entity) :
  List.Forall (fun rc => markers_in rc <= 1) rule_comps ->
  list_sum (map markers_in rule_comps) <= length rule_comps
  /\ (List.Exists (fun rc => markers_in rc = 0) rule_comps ->
      list_sum (map markers_in rule_comps) < length rule_comps).
Proof.
  induction 1 as [|rc rest H _ [IH1 IH2]]; simpl.
  - split; [done|]. intros Hex. inversion Hex.
  - split; [lia|]. intros Hex. inversion Hex; subst; [lia|].
    specialize (IH2 ltac:(assumption)). lia.
Qed.

Lemma markers_at_least_one (rule_comps : list Entity) :
  List.Forall (fun rc => 1 <= markers_in rc) rule_comps ->
  length rule_comps <= list_sum (map markers_in rule_comps)
  /\ (List.Exists (fun rc => 1 < markers_in rc) rule_comps ->
      length rule_comps < list_sum (map markers_in rule_comps)).
Proof.
  induction 1 as [|rc rest H _ [IH1 IH2]]; simpl.
  - split; [done|]. intros Hex. inversion Hex.
  - split; [lia|]. intros Hex. inversion Hex; subst; [lia|].
    specialize (IH2 ltac:(assumption)). lia.
Qed.

(** C10, as stated, fails: the assertion holds for a rule component with
    two markers next to one with none. *)
Lemma C10_surplus_offsets_lack :
  assert_categories [Sample.two_markers; Sample.no_marker] = Returns tt
  /\ markers_in Sample.two_markers = 2
  /\ markers_in Sample.no_marker = 0.
Proof. repeat split; vm_compute; reflexivity. Qed.

(** C10, amended. The assertion of line 90 holds exactly when the markers
    found in all rule components together are as many as the rule
    components, and raises [AssertionError] otherwise.  It holds when every
    descriptor contains exactly one marker; it fails when some descriptor
    contains none and no descriptor more than one, and when some descriptor
    contains more than one and every descriptor at least one. *)
Theorem C10_assertion_counts_markers (rule_comps : list Entity) :
  (assert_categories rule_comps = Returns tt <->
   list_sum (map markers_in rule_comps) = length rule_comps)
  /\ (assert_categories rule_comps <> Returns tt ->
      assert_categories rule_comps = Raises AssertionError)
  /\ (List.Forall (fun rc => markers_in rc = 1) rule_comps ->
      assert_categories rule_comps = Returns tt)
  /\ (List.Forall (fun rc => markers_in rc <= 1) rule_comps ->
      List.Exists (fun rc => markers_in rc = 0) rule_comps ->
      assert_categories rule_comps = Raises AssertionError)
  /\ (List.Forall (fun rc => 1 <= markers_in rc) rule_comps ->
      List.Exists (fun rc => 1 < markers_in rc) rule_comps ->
      assert_categories rule_comps = Raises AssertionError).
Proof.
  rewrite assert_categories_run.
  destruct (Nat.eqb_spec (length rule_comps) (list_sum (map markers_in rule_comps)))
    as [Heq|Hne].
  - split; [split; [done|by intros _]|]. split; [done|]. split; [done|]. split.
    + intros Hall Hex. apply markers_at_most_one in Hall as [_ Hall].
      specialize (Hall Hex). lia.
    + intros Hall Hex. apply markers_at_least_one in Hall as [_ Hall].
      specialize (Hall Hex). lia.
  - split; [split; [done|intros H; congruence]|]. split; [done|]. split; [|done].
    intros Hall. apply markers_all_one in Hall. congruence.
Qed.

Lemma C10_assertion_counts_markers_witness :
  assert_categories [Sample.send_beacon; Sample.no_marker] = Raises AssertionError.
Proof.
  destruct (C10_assertion_counts_markers [Sample.send_beacon; Sample.no_marker])
    as (_ & _ & _ & Hlack & _).
  apply Hlack.
  - repeat constructor.
  - right. left. reflexivity.
Defined.

(** ** The worked example of the specification

    Two data elements, [userId] and [cartTotal], and one action of the rule
    Track Purchase whose settings read [userId] from the data layer. *)
Example worked_example :
  let data_elements := [Sample.user_id; Sample.cart_total] in
  let rule_comps := [Sample.send_beacon] in
  let de_usage := [("userId"%string, [Sample.send_beacon])] in
  assert_categories rule_comps = Returns tt
  /\ find_data_element_usage Sample.serialize data_elements rule_comps [] []
     = (Returns de_usage, [])
  /\ output_list de_usage
     = Returns [ {| data_element_name := "userId";
                    usage_in_type := "rule_actions";
                    usage_in_name := "Send beacon";
                    usage_in_rule_name := Some "Track Purchase"%string |} ]
  /\ not_used data_elements de_usage = {[ "cartTotal"%string ]}.
Proof.
  repeat split; vm_compute; reflexivity.
Qed.

(** * Further properties of the script *)

(** ** When the matcher returns and what it raises *)
Section MatcherOutcome.

Variable str_attributes : Entity -> result string.

Local Notation find_occurrence := (find_occurrence_in_attributes str_attributes).
Local Notation scan := (scan_subjects str_attributes).
Local Notation scan_all := (scan_data_elements str_attributes).
Local Notation pattern_of d := (usage_pattern (name (attributes d))).







End MatcherOutcome.




(** ** What the mapping holds *)

(** X3. An entity is recorded under a name exactly when it belongs to one
    of the three scanned collections, differs in contents from some data
    element of that name, and serializes to a text in which the name stands
    between two enclosures.  Nothing outside the scanned collections is ever
    recorded. *)
Theorem recorded_iff_enclosed
    (str_attributes : Entity -> result string)
    (data_elements rule_comps extensions : list Entity)
    (out out' : list printed) (results : dict) (n : string) (c : Entity) :
  find_data_element_usage str_attributes data_elements rule_comps extensions out
    = (Returns results, out') ->
  (exists vs, get n results = Some vs /\ In c vs)
  <->
  (exists d text,
      In d data_elements /\ name (attributes d) = n
      /\ In c (data_elements ++ rule_comps ++ extensions)
      /\ py_eq c d = false
      /\ str_attributes c = Returns text /\ enclosed n text).
Proof.
  intros Hrun. apply usage_returns in Hrun as (_ & Hres & _). rewrite Hres.
  split.
  - intros (vs & Hvs & Hc). apply nonempty_Some in Hvs as [-> _].
    apply in_hits in Hc as (d & Hd & Hn & Hc).
    apply in_matching in Hc as (Hc & Hne & Hocc). unfold occurs in Hocc.
    destruct (str_attributes c) as [text|e] eqn:Hs; [|discriminate].
    exists d, text. rewrite Hn in Hocc. apply re_search_enclosed in Hocc. auto 7.
  - intros (d & text & Hd & Hn & Hc & Hne & Hs & Henc).
    assert (Hin : In c (hits str_attributes n data_elements
                          (data_elements ++ rule_comps ++ extensions))).
    { apply in_hits. exists d. split; [done|]. split; [done|].
      apply in_matching. split; [done|]. split; [done|].
      unfold occurs. rewrite Hs, Hn. by apply re_search_enclosed. }
    destruct (hits _ _ _ _) as [|c0 l] eqn:Hh; [destruct Hin|].
    exists (c0 :: l). split; [reflexivity|done].
Qed.

Lemma recorded_iff_enclosed_witness :
  exists d text,
    In d [Sample.user_id; Sample.cart_total] /\ name (attributes d) = "userId"%string
    /\ In Sample.send_beacon
         ([Sample.user_id; Sample.cart_total] ++ [Sample.send_beacon] ++ [])
    /\ py_eq Sample.send_beacon d = false
    /\ Sample.serialize Sample.send_beacon = Returns text
    /\ enclosed "userId" text.
Proof.
  apply (recorded_iff_enclosed Sample.serialize
           [Sample.user_id; Sample.cart_total] [Sample.send_beacon] [] [] []
           [("userId"%string, [Sample.send_beacon])]).
  - vm_compute. reflexivity.
  - exists [Sample.send_beacon]. split; [reflexivity|by left].
Defined.

(** X4. When the names of the data elements are pairwise distinct and no
    entity is listed twice in the scanned collections, no entity is listed
    twice under a name. *)
Theorem recorded_once
    (str_attributes : Entity -> result string)
    (data_elements rule_comps extensions : list Entity)
    (out out' : list printed) (results : dict) (n : string) (vs : list Entity) :
  List.NoDup (names data_elements) ->
  List.NoDup (data_elements ++ rule_comps ++ extensions) ->
  find_data_element_usage str_attributes data_elements rule_comps extensions out
    = (Returns results, out') ->
  get n results = Some vs ->
  List.NoDup vs.
Proof.
  intros Hnames Hnd Hrun Hget.
  apply usage_returns in Hrun as (_ & Hres & _). rewrite Hres in Hget.
  apply nonempty_Some in Hget as [-> Hne].
  destruct (in_dec string_dec n (names data_elements)) as [Hin|Hout].
  - apply in_map_iff in Hin as (d & <- & Hd).
    rewrite hits_unique by done.
    apply NoDup_ListNoDup, NoDup_filter. by apply NoDup_ListNoDup.
  - rewrite hits_absent in Hne by done. done.
Qed.

Lemma recorded_once_witness :
  List.NoDup [Sample.basket; Sample.send_beacon; Sample.two_markers; Sample.target].
Proof.
  apply (recorded_once Sample.serialize
           [Sample.user_id; Sample.basket] [Sample.send_beacon; Sample.two_markers]
           [Sample.target] [] []
           [("userId"%string,
             [Sample.basket; Sample.send_beacon; Sample.two_markers; Sample.target])]
           "userId").
  - repeat constructor; simpl; intuition discriminate.
  - repeat constructor; simpl; intuition discriminate.
  - vm_compute. reflexivity.
  - reflexivity.
Defined.

Section MappingKeys.

Variable str_attributes : Entity -> result string.

Local Notation scan_all := (scan_data_elements str_attributes).
Local Notation pattern_of d := (usage_pattern (name (attributes d))).

Lemma get_append_all_ne (k n : string) (vs : list Entity) (d : dict) :
  k <> n -> get n (append_all k vs d) = get n d.
Proof.
  intros Hne. unfold append_all. revert d.
  induction vs as [|v vs IH]; intros d; simpl; [done|].
  by rewrite IH, get_setdefault_append_ne.
Qed.

Lemma keys_append_all_present (k : string) (vs : list Entity) (d : dict) :
  get k d <> None -> keys (append_all k vs d) = keys d.
Proof.
  unfold append_all. revert d. induction vs as [|v vs IH]; intros d Hget; simpl; [done|].
  rewrite IH.
  - rewrite keys_setdefault_append. by destruct (get k d).
  - by rewrite get_setdefault_append_eq.
Qed.

Lemma keys_append_all_fresh (k : string) (v : Entity) (vs : list Entity) (d : dict) :
  get k d = None -> keys (append_all k (v :: vs) d) = keys d ++ [k].
Proof.
  intros Hget. change (append_all k (v :: vs) d)
    with (append_all k vs (setdefault_append k v d)).
  rewrite keys_append_all_present.
  - by rewrite keys_setdefault_append, Hget.
  - by rewrite get_setdefault_append_eq.
Qed.

Lemma scan_all_keys todo subjects results out results' out' :
  List.NoDup (names todo) ->
  (forall d, In d todo -> get (name (attributes d)) results = None) ->
  scan_all todo subjects results out = (Returns results', out') ->
  keys results' =
  keys results ++ names (filter (fun d => matching str_attributes d subjects <> []) todo).
Proof.
  revert results out. induction todo as [|d todo IH]; intros results out Hnd Hfresh;
    cbn [scan_data_elements].
  - unfold ret. intros [= <- <-]. by rewrite app_nil_r.
  - unfold bind.
    destruct (scan_subjects str_attributes d (pattern_of d) subjects results out)
      as [[r1|e] out1] eqn:Hs; [|discriminate].
    apply scan_returns in Hs as [-> ->]. intros H.
    inversion Hnd as [|? ? Hd Hrest]; subst.
    apply IH in H; [|done|].
    + rewrite H, filter_cons. clear H.
      destruct (matching str_attributes d subjects) as [|v vs] eqn:Hm.
      * by case_decide.
      * case_decide; [|done]. rewrite keys_append_all_fresh.
        -- by rewrite <- app_assoc.
        -- apply Hfresh. by left.
    + intros d' Hd'. rewrite get_append_all_ne.
      * apply Hfresh. by right.
      * intros Heq. apply Hd. rewrite Heq.
        exact (in_map (fun e => name (attributes e)) _ _ Hd').
Qed.

Lemma count_failures (d c : Entity) (subjects : list Entity) :
  count_occ printed_eq_dec (failures str_attributes d subjects) (FailedAttributes c)
  = if negb (py_eq c d) && fails str_attributes c
    then count_occ Entity_eq_dec subjects c else 0.
Proof.
  induction subjects as [|s subjects IH].
  - simpl. by destruct (negb (py_eq c d) && fails str_attributes c).
  - rewrite failures_cons, count_occ_app, IH. clear IH.
    destruct (Entity_eq_dec s c) as [->|Hne].
    + rewrite count_occ_cons_eq by done.
      destruct (negb (py_eq c d) && fails str_attributes c); [|done].
      by rewrite count_occ_cons_eq.
    + rewrite count_occ_cons_neq by done.
      assert (Hline : count_occ printed_eq_dec
                (if negb (py_eq s d) && fails str_attributes s
                 then [FailedAttributes s] else []) (FailedAttributes c) = 0).
      { destruct (negb (py_eq s d) && fails str_attributes s); [|done].
        rewrite count_occ_cons_neq; [done|]. intros [= Heq]. by destruct Hne. }
      by rewrite Hline.
Qed.

Lemma count_all_failures (c : Entity) (data_elements subjects : list Entity) :
  count_occ printed_eq_dec (all_failures str_attributes data_elements subjects)
    (FailedAttributes c)
  = if fails str_attributes c
    then length (filter (fun d => py_eq c d = false) data_elements)
         * count_occ Entity_eq_dec subjects c
    else 0.
Proof.
  unfold all_failures. induction data_elements as [|d rest IH]; simpl.
  - by destruct (fails str_attributes c).
  - rewrite count_occ_app, IH, count_failures, filter_cons.
    destruct (fails str_attributes c), (py_eq c d); simpl;
      try case_decide; try congruence; simpl; lia.
Qed.

End MappingKeys.

(** X5. When the names of the data elements are pairwise distinct, the keys
    of the mapping are the names of the data elements that have a match, in
    the order the data elements were fetched. *)
Theorem keys_in_fetch_order
    (str_attributes : Entity -> result string)
    (data_elements rule_comps extensions : list Entity)
    (out out' : list printed) (results : dict) :
  List.NoDup (names data_elements) ->
  find_data_element_usage str_attributes data_elements rule_comps extensions out
    = (Returns results, out') ->
  keys results =
  names (filter (fun d => matching str_attributes d
                            (data_elements ++ rule_comps ++ extensions) <> [])
                data_elements).
Proof.
  intros Hnd Hrun. unfold find_data_element_usage in Hrun.
  by apply scan_all_keys in Hrun.
Qed.

Lemma keys_in_fetch_order_witness :
  keys [("userId"%string, [Sample.two_markers]); ("cartTotal"%string, [Sample.analytics])]
  = names (filter (fun d => matching Sample.serialize d
                              ([Sample.user_id; Sample.cart_total]
                               ++ [Sample.two_markers; Sample.no_marker]
                               ++ [Sample.analytics]) <> [])
                  [Sample.user_id; Sample.cart_total]).
Proof.
  apply (keys_in_fetch_order Sample.serialize
           [Sample.user_id; Sample.cart_total] [Sample.two_markers; Sample.no_marker]
           [Sample.analytics] [] []).
  - repeat constructor; simpl; intuition discriminate.
  - vm_compute. reflexivity.
Defined.

(** X6. The matcher only adds to what was printed.  A candidate whose
    serialization fails with a [TypeError] is reported once for every data
    element it is not skipped for and every place it has in the scanned
    collections; nothing is printed about any other candidate. *)
Theorem failures_reported_per_data_element
    (str_attributes : Entity -> result string)
    (data_elements rule_comps extensions : list Entity)
    (out out' : list printed) (results : dict) :
  find_data_element_usage str_attributes data_elements rule_comps extensions out
    = (Returns results, out') ->
  exists lines,
    out' = out ++ lines
    /\ forall c,
         count_occ printed_eq_dec lines (FailedAttributes c)
         = if fails str_attributes c
           then length (filter (fun d => py_eq c d = false) data_elements)
                * count_occ Entity_eq_dec (data_elements ++ rule_comps ++ extensions) c
           else 0.
Proof.
  intros Hrun. apply usage_returns in Hrun as (_ & _ & ->).
  eexists. split; [reflexivity|]. intros c. apply count_all_failures.
Qed.

Lemma failures_reported_per_data_element_witness :
  exists lines,
    [FailedAttributes Sample.user_id_again] = [] ++ lines
    /\ forall c,
         count_occ printed_eq_dec lines (FailedAttributes c)
         = if fails Sample.serialize_type_error c
           then length (filter (fun d => py_eq c d = false)
                               [Sample.user_id; Sample.user_id_again])
                * count_occ Entity_eq_dec
                    ([Sample.user_id; Sample.user_id_again] ++ [] ++ []) c
           else 0.
Proof.
  apply (failures_reported_per_data_element Sample.serialize_type_error
           [Sample.user_id; Sample.user_id_again] [] [] [] _
           [("userId"%string, [Sample.user_id])]).
  vm_compute. reflexivity.
Defined.

(** X7. A name is a row of the unused table exactly when it is the name of
    a data element and no candidate, for any data element of that name that
    does not skip it, serializes to a text the pattern is found in. *)
Theorem not_used_iff_no_match
    (str_attributes : Entity -> result string)
    (data_elements rule_comps extensions : list Entity)
    (out out' : list printed) (results : dict) (n : string) :
  find_data_element_usage str_attributes data_elements rule_comps extensions out
    = (Returns results, out') ->
  n ∈ not_used data_elements results
  <->
  In n (names data_elements)
  /\ forall d c, In d data_elements -> name (attributes d) = n ->
                 In c (data_elements ++ rule_comps ++ extensions) ->
                 py_eq c d = false ->
                 occurs str_attributes c (usage_pattern n) = false.
Proof.
  intros Hrun. apply usage_returns in Hrun as (_ & Hres & _).
  unfold not_used. fold (names data_elements).
  rewrite elem_of_difference, !elem_of_list_to_set, !list_elem_of_In, keys_get, Hres.
  split.
  - intros [Hn Hnone]. split; [done|]. intros d c Hd Hname Hc Hne.
    apply not_true_is_false. intros Hocc. apply Hnone.
    assert (Hin : In c (hits str_attributes n data_elements
                          (data_elements ++ rule_comps ++ extensions))).
    { apply in_hits. exists d. split; [done|]. split; [done|].
      apply in_matching. by rewrite Hname. }
    by destruct (hits _ _ _ _).
  - intros [Hn Hnone]. split; [done|]. intros Hsome. apply Hsome.
    apply nonempty_None.
    destruct (hits _ _ _ _) as [|c l] eqn:Hh; [done|].
    assert (Hin : In c (hits str_attributes n data_elements
                          (data_elements ++ rule_comps ++ extensions))).
    { rewrite Hh. by left. }
    apply in_hits in Hin as (d & Hd & Hname & Hc).
    apply in_matching in Hc as (Hc & Hne & Hocc).
    rewrite Hname, (Hnone d c) in Hocc by done. discriminate.
Qed.

Lemma not_used_iff_no_match_witness :
  "cartTotal"%string ∈
    not_used [Sample.user_id; Sample.cart_total] [("userId"%string, [Sample.send_beacon])].
Proof.
  apply (not_used_iff_no_match Sample.serialize
           [Sample.user_id; Sample.cart_total] [Sample.send_beacon] [] [] []).
  - vm_compute. reflexivity.
  - split; [right; by left|].
    intros d c Hd Hname Hc Hne.
    destruct Hd as [<-|[<-|[]]]; [discriminate|].
    destruct Hc as [<-|[<-|[<-|[]]]]; vm_compute in Hne |- *; congruence.
Defined.

(** ** The used table *)

Lemma usage_row_fields (k : string) (subj : Entity) (r : row) :
  usage_row k subj = Returns r ->
  data_element_name r = k /\ usage_in_name r = name (attributes subj).
Proof.
  unfold usage_row. destruct (negb _).
  - by intros [= <-].
  - destruct (search_category _); [by intros [= <-]|discriminate].
Qed.

Lemma markers_in_zero (subj : Entity) :
  markers_in subj = 0 <->
  search_category (delegate_descriptor_id (attributes subj)) = None.
Proof.
  unfold markers_in, in_category. split.
  - intros Hz.
    destruct (search_category _) as [cat|] eqn:Hcat; [|done].
    apply search_category_Some in Hcat as [[_ H]|[[_ H]|[_ H]]];
      rewrite H in Hz;
      repeat match goal with |- context [if ?b then _ else _] => destruct b end;
      repeat match type of Hz with context [if ?b then _ else _] => destruct b end;
      simpl in Hz; lia.
  - intros Hnone. apply search_category_None in Hnone as (-> & -> & ->). done.
Qed.

Lemma usage_row_raises (k : string) (subj : Entity) (e : exception) :
  usage_row k subj = Raises e <->
  e = AttributeError /\ type subj = "rule_components"%string /\ markers_in subj = 0.
Proof.
  unfold usage_row. rewrite markers_in_zero.
  destruct (String.eqb_spec (type subj) "rule_components") as [Ht|Ht]; simpl.
  - destruct (search_category _) as [cat|]; split.
    + discriminate.
    + by intros (_ & _ & ?).
    + by intros [= <-].
    + by intros (-> & _).
  - split; [discriminate|]. by intros (_ & ? & _).
Qed.

Lemma usage_rows_outcome (k : string) (subjects : list Entity) :
  match usage_rows k subjects with
  | Returns rs =>
      map (fun r => (data_element_name r, usage_in_name r)) rs
      = map (fun subj => (k, name (attributes subj))) subjects
      /\ forall subj, In subj subjects -> exists r, usage_row k subj = Returns r
  | Raises e =>
      e = AttributeError
      /\ exists subj, In subj subjects /\ type subj = "rule_components"%string
                      /\ markers_in subj = 0
  end.
Proof.
  induction subjects as [|subj subjects IH]; simpl.
  - split; [done|]. intros subj [].
  - destruct (usage_row k subj) as [r|e] eqn:Hrow.
    + destruct (usage_rows k subjects) as [rs|e].
      * destruct IH as [Hmap Hall]. split.
        -- simpl. apply usage_row_fields in Hrow as [-> ->]. by rewrite Hmap.
        -- intros s [<-|Hs]; [eauto|by apply Hall].
      * destruct IH as (-> & s & Hs & Hrest). split; [done|]. exists s. auto.
    + apply usage_row_raises in Hrow as (-> & Ht & Hz). split; [done|].
      exists subj. auto.
Qed.

Lemma output_list_outcome (de_usage : dict) :
  match output_list de_usage with
  | Returns rows =>
      map (fun r => (data_element_name r, usage_in_name r)) rows
      = flat_map (fun kv => map (fun subj => (fst kv, name (attributes subj))) (snd kv))
                 de_usage
      /\ forall k vs subj, In (k, vs) de_usage -> In subj vs ->
                           exists r, usage_row k subj = Returns r
  | Raises e =>
      e = AttributeError
      /\ exists k vs subj, In (k, vs) de_usage /\ In subj vs
                           /\ type subj = "rule_components"%string
                           /\ markers_in subj = 0
  end.
Proof.
  induction de_usage as [|[k vs] rest IH]; simpl.
  - split; [done|]. intros k vs subj [].
  - pose proof (usage_rows_outcome k vs) as Hrows.
    destruct (usage_rows k vs) as [usage|e].
    + destruct Hrows as [Hmap Hall].
      destruct (output_list rest) as [rows|e].
      * destruct IH as [Hmap' Hall']. split.
        -- by rewrite map_app, Hmap, Hmap'.
        -- intros k' vs' subj [[= <- <-]|Hin] Hs; [by apply Hall|by apply (Hall' k' vs')].
      * destruct IH as (-> & k' & vs' & subj & Hin & Hrest). split; [done|].
        exists k', vs', subj. auto.
    + destruct Hrows as (-> & subj & Hs & Hrest). split; [done|].
      exists k, vs, subj. auto.
Qed.

(** X8. The used table holds one row for every pair of a key and an entity
    listed under it, in the order of the keys and, under a key, in the order
    of the list; each row carries the key and the name of the entity. *)
Theorem used_table_rows_follow_mapping (de_usage : dict) (rows : list row) :
  output_list de_usage = Returns rows ->
  map (fun r => (data_element_name r, usage_in_name r)) rows
  = flat_map (fun kv => map (fun subj => (fst kv, name (attributes subj))) (snd kv))
             de_usage.
Proof.
  intros H. pose proof (output_list_outcome de_usage) as Hout.
  rewrite H in Hout. tauto.
Qed.

Lemma used_table_rows_follow_mapping_witness :
  [("userId"%string, "Send beacon"%string); ("userId"%string, "cartTotal"%string)]
  = flat_map (fun kv => map (fun subj => (fst kv, name (attributes subj))) (snd kv))
             [("userId"%string, [Sample.send_beacon; Sample.cart_total])].
Proof.
  apply (used_table_rows_follow_mapping
           [("userId"%string, [Sample.send_beacon; Sample.cart_total])]
           [ {| data_element_name := "userId"; usage_in_type := "rule_actions";
                usage_in_name := "Send beacon";
                usage_in_rule_name := Some "Track Purchase"%string |};
             {| data_element_name := "userId"; usage_in_type := "data_elements";
                usage_in_name := "cartTotal"; usage_in_rule_name := None |} ]).
  vm_compute. reflexivity.
Defined.


(** X10. The category in the usage type of a rule component's row is one
    whose marker the descriptor of that rule component contains, whatever
    other markers it holds. *)
Theorem row_category_is_contained (de_usage : dict) (rows : list row) (r : row) :
  output_list de_usage = Returns rows ->
  In r rows ->
  exists k vs subj,
    In (k, vs) de_usage /\ In subj vs /\ usage_row k subj = Returns r
    /\ (type subj = "rule_components"%string ->
        exists category,
          In category ["actions"%string; "conditions"%string; "events"%string]
          /\ usage_in_type r = String.append "rule_" category
          /\ contains (marker category) (delegate_descriptor_id (attributes subj))
             = true).
Proof.
  intros Hout Hin.
  destruct (output_list_in _ _ _ Hout Hin) as (k & vs & subj & Hk & Hs & Hrow).
  exists k, vs, subj. split; [done|]. split; [done|]. split; [done|].
  intros Ht. unfold usage_row in Hrow. rewrite Ht in Hrow. simpl in Hrow.
  destruct (search_category _) as [cat|] eqn:Hcat; [|discriminate].
  injection Hrow as <-. exists cat. simpl.
  apply search_category_Some in Hcat as [[-> H]|[[-> H]|[-> H]]];
    (split; [simpl; tauto|]); split; done.
Qed.

Lemma row_category_is_contained_witness :
  exists subj category,
    In subj [Sample.two_markers]
    /\ "rule_events"%string = String.append "rule_" category
    /\ contains (marker category) (delegate_descriptor_id (attributes subj)) = true.
Proof.
  destruct (row_category_is_contained
              [("userId"%string, [Sample.two_markers])]
              [ {| data_element_name := "userId"; usage_in_type := "rule_events";
                   usage_in_name := "Odd one";
                   usage_in_rule_name := Some "Track Purchase"%string |} ]
              {| data_element_name := "userId"; usage_in_type := "rule_events";
                 usage_in_name := "Odd one";
                 usage_in_rule_name := Some "Track Purchase"%string |})
    as (k & vs & subj & Hk & Hs & _ & Hcat).
  - vm_compute. reflexivity.
  - by left.
  - destruct Hk as [[= <- <-]|[]].
    destruct Hs as [<-|[]].
    destruct (Hcat eq_refl) as (category & _ & Htype & Hcontains).
    exists Sample.two_markers, category. split; [by left|]. split; done.
Defined.




(** ** Property selection *)

(** X12. Selecting the property returns the first fetched property that
    bears the configured name, and raises [IndexError] exactly when no
    fetched property bears it. *)
Theorem select_property_first_match
    (my_property_name : string) (my_properties : list Entity) :
  (forall my_property,
      select_property my_property_name my_properties = Returns my_property
      <->
      exists before after,
        my_properties = before ++ my_property :: after
        /\ name (attributes my_property) = my_property_name
        /\ ~ In my_property_name (property_names before))
  /\ (select_property my_property_name my_properties
        = Raises (OtherException "IndexError")
      <-> ~ In my_property_name (property_names my_properties))
  /\ (forall e, select_property my_property_name my_properties = Raises e ->
                e = OtherException "IndexError").
Proof.
  unfold select_property.
  induction my_properties as [|p rest (IHret & IHraise & IHonly)]; simpl.
  - split; [|split].
    + intros q. split; [discriminate|].
      intros (before & after & Heq & _). by destruct before.
    + split; [tauto|done].
    + by intros e [= <-].
  - rewrite filter_cons.
    destruct (String.eqb_spec my_property_name (name (attributes p))) as [Heq|Hne];
      case_decide; try congruence.
    + split; [|split].
      * intros q. split.
        -- intros [= <-]. exists [], rest. simpl. auto.
        -- intros (before & after & Hsplit & Hname & Hfirst).
           destruct before as [|b before]; simpl in *.
           ++ by injection Hsplit as ->.
           ++ injection Hsplit as <- _. destruct Hfirst. by left.
      * split; [discriminate|]. intros Hout. destruct Hout. by left.
      * discriminate.
    + split; [|split].
      * intros q. rewrite IHret. split.
        -- intros (before & after & -> & Hname & Hfirst).
           exists (p :: before), after. simpl. split; [done|]. split; [done|].
           intros [Hp|Hin]; [congruence|done].
        -- intros (before & after & Hsplit & Hname & Hfirst).
           destruct before as [|b before]; simpl in *.
           ++ injection Hsplit as -> _. congruence.
           ++ injection Hsplit as <- ->. exists before, after. tauto.
      * rewrite IHraise. split; [|tauto]. intros Hout [Hp|Hin]; [congruence|done].
      * exact IHonly.
Qed.

(** ** Limits of the pattern *)
Section PatternLimits.

Local Notation chars := (list_ascii_of_string).

Lemma prefix_app (a b : string) : String.prefix a (String.append a b) = true.
Proof.
  induction a as [|c a IH]; simpl; [by destruct b|].
  by destruct (ascii_dec c c).
Qed.

Lemma contains_app (pre sub post : string) :
  contains sub (String.append pre (String.append sub post)) = true.
Proof.
  induction pre as [|c pre IH].
  - change (contains sub (sub +:+ post) = true).
    by rewrite contains_unfold, prefix_app.
  - change (contains sub (String c (pre +:+ sub +:+ post)) = true).
    rewrite contains_unfold, IH. apply orb_true_r.
Qed.

Lemma enclosed_contains (X text : string) : enclosed X text -> contains X text = true.
Proof.
  intros (pre & l & r & post & _ & _ & ->).
  replace (pre +:+ l +:+ X +:+ r +:+ post)
    with ((pre +:+ l) +:+ X +:+ (r +:+ post)).
  - apply contains_app.
  - apply chars_inj. rewrite !chars_app. by rewrite <- !app_assoc.
Qed.

Lemma first_delimiter (A R P R' : list ascii) (q d : ascii) :
  Forall (fun c => is_delimiter c = false) A ->
  is_delimiter d = true ->
  A ++ q :: R = P ++ d :: R' ->
  (P = A /\ d = q /\ R = R') \/ exists P', P = A ++ q :: P' /\ R = P' ++ d :: R'.
Proof.
  revert P. induction A as [|a A IH]; intros P HA Hd; simpl.
  - destruct P as [|p P]; simpl; intros [= -> ->]; [by left|]. right. by exists P.
  - apply Forall_cons in HA as [Ha HA].
    destruct P as [|p P]; simpl; intros [= -> H].
    + congruence.
    + destruct (IH P HA Hd H) as [(-> & -> & ->)|(P' & -> & ->)]; [by left|].
      right. by exists P'.
Qed.

Lemma no_delimiter_inside (B P R : list ascii) (d : ascii) :
  Forall (fun c => is_delimiter c = false) B ->
  is_delimiter d = true -> B <> P ++ d :: R.
Proof.
  intros HB Hd ->. rewrite List.Forall_forall in HB.
  rewrite HB in Hd; [done|]. apply in_or_app. right. by left.
Qed.

(** A quote that a single backslash precedes does not close the name. *)
Lemma search_single_backslash (X : string) (A B : list ascii) (q1 q2 : ascii) :
  no_delimiter X = true ->
  Forall (fun c => is_delimiter c = false) A ->
  Forall (fun c => is_delimiter c = false) B ->
  is_delimiter q2 = true ->
  Re.search (usage_pattern X) (A ++ q1 :: chars X ++ backslash :: q2 :: B) = false.
Proof.
  intros HX HA HB Hq2. apply no_delimiter_chars in HX.
  apply not_true_is_false. intros H.
  apply search_usage_pattern in H as (pre & l & r & post & Hl & Hr & Heq).
  apply enclosure_last in Hl as (l0 & d & -> & Hd).
  rewrite <- !app_assoc in Heq. simpl in Heq. rewrite app_assoc in Heq.
  assert (HXb : Forall (fun c => is_delimiter c = false) (chars X ++ [backslash])).
  { apply Forall_app. split; [done|by constructor]. }
  apply (first_delimiter A) in Heq as [(_ & _ & Heq)|(P' & _ & Heq)]; try done.
  - apply app_inv_head in Heq.
    apply enclosure_first in Hr as (c & r' & -> & Hc).
    simpl in Heq. injection Heq as <- Heq.
    destruct Hc as [Hc|[r'' ->]]; [discriminate|].
    simpl in Heq. injection Heq as -> _. discriminate.
  - change (chars X ++ backslash :: q2 :: B)
      with (chars X ++ [backslash] ++ q2 :: B) in Heq.
    rewrite app_assoc in Heq.
    apply (first_delimiter (chars X ++ [backslash])) in Heq
      as [(_ & _ & Heq)|(P'' & _ & Heq)]; try done.
    + apply enclosure_last in Hr as (r0 & d' & -> & Hd').
      rewrite <- !app_assoc in Heq. simpl in Heq. rewrite app_assoc in Heq.
      by apply no_delimiter_inside in Heq.
    + by apply no_delimiter_inside in Heq.
Qed.

End PatternLimits.

(** X13. An entity is recorded under a name only if the text it serializes
    to contains the whole name: a name the text holds in parts only is
    never detected. *)
Theorem recorded_text_contains_name
    (str_attributes : Entity -> result string)
    (data_elements rule_comps extensions : list Entity)
    (out out' : list printed) (results : dict)
    (n : string) (vs : list Entity) (c : Entity) :
  find_data_element_usage str_attributes data_elements rule_comps extensions out
    = (Returns results, out') ->
  get n results = Some vs ->
  In c vs ->
  exists text, str_attributes c = Returns text /\ contains n text = true.
Proof.
  intros Hrun Hget Hc. apply usage_returns in Hrun as (_ & Hres & _).
  rewrite Hres in Hget. apply nonempty_Some in Hget as [-> _].
  apply in_hits in Hc as (d & _ & Hn & Hc).
  apply in_matching in Hc as (_ & _ & Hocc). unfold occurs in Hocc.
  destruct (str_attributes c) as [text|e]; [|discriminate].
  exists text. split; [done|]. rewrite Hn in Hocc.
  by apply enclosed_contains, re_search_enclosed.
Qed.

Lemma recorded_text_contains_name_witness :
  exists text,
    Sample.serialize Sample.send_beacon = Returns text
    /\ contains "userId" text = true.
Proof.
  apply (recorded_text_contains_name Sample.serialize
           [Sample.user_id; Sample.cart_total] [Sample.send_beacon] [] [] []
           [("userId"%string, [Sample.send_beacon])] "userId" [Sample.send_beacon]).
  - vm_compute. reflexivity.
  - reflexivity.
  - by left.
Defined.

(** X14. A quote that exactly one backslash precedes does not close an
    enclosure: in a text without other percent signs or quotes, a name that
    follows a percent sign or quote and is followed by one backslash and a
    quote is not found. *)
Theorem single_backslash_quote_not_accepted
    (X before after : string) (opening closing : ascii) :
  no_delimiter X = true ->
  no_delimiter before = true ->
  no_delimiter after = true ->
  is_delimiter closing = true ->
  re_search (usage_pattern X)
    (before +:+ str opening +:+ X +:+ str backslash +:+ str closing +:+ after)
  = false.
Proof.
  intros HX Hb Ha Hq. unfold re_search.
  rewrite !chars_app. simpl.
  apply search_single_backslash; try done; by apply no_delimiter_chars.
Qed.

Lemma single_backslash_quote_not_accepted_witness :
  re_search (usage_pattern "userId")
    (("getVar(" +:+ str backslash) +:+ str single_quote +:+ "userId"
     +:+ str backslash +:+ str single_quote +:+ ")")
  = false.
Proof.
  apply (single_backslash_quote_not_accepted "userId" ("getVar(" +:+ str backslash)
           ")" single_quote single_quote); reflexivity.
Defined.
